(** * The Plane synchronisation cache: embedding and verification

    The scripts under [plugins/plane/scripts] keep one JSON document (the
    cache) in step with a remote issue tracker and with a directory of task
    files.  This development embeds [sync_cache.py], [add_issue.py],
    [add_link.py] and [discover.py] as Rocq functions and proves the
    properties the specification states about them.  It also embeds the
    entry points of the scripts, the frontmatter parser of [discover.py]
    and the reader [read_cache.py], and proves further properties of the
    code: invariants of the documents the operations reach, round trips,
    the counts of the reports.

    Conventions of the embedding:
    - a Python [dict] is an insertion-ordered association list ([odict]):
      assignment to a present key keeps its position, a new key goes last,
      [items()] enumerates in that order;
    - JSON scalars are [jval]; Python truthiness, [str()] and [lower()] are
      written out ([lower] acts on the ASCII letters);
    - an uncaught Python exception is the [Raise] outcome, a returned result
      dict is the [Return] outcome;
    - the cache file is the [disk] component of the [world]; [saves] counts
      the calls of [save_cache]; the clock is an argument [now];
    - the text of a task file is a [string] of code points below 256. *)

From stdpp Require Import base option list strings pretty.
From Stdlib Require Import ZArith Ascii.

(** ** Python values *)

Inductive jval :=
  | JNull
  | JStr (s : string)
  | JInt (z : Z).

#[global] Instance jval_eq_dec : EqDecision jval.
Proof. solve_decision. Defined.

(** [bool(v)]: [None], the empty string and [0] are falsy. *)
Definition truthy (v : jval) : bool :=
  match v with
  | JNull => false
  | JStr s => negb (bool_decide (s = ""))
  | JInt z => negb (bool_decide (z = 0%Z))
  end.

(** Truthiness of a [str]. *)
Definition str_truthy (s : string) : bool := negb (bool_decide (s = "")).

(** [str(v)], as an f-string formats it. *)
Definition py_str (v : jval) : string :=
  match v with
  | JNull => "None"
  | JStr s => s
  | JInt z => pretty z
  end.

Fixpoint string_map (f : ascii -> ascii) (s : string) : string :=
  match s with
  | EmptyString => EmptyString
  | String c s' => String (f c) (string_map f s')
  end.

Definition lower_ascii (c : ascii) : ascii :=
  let n := nat_of_ascii c in
  if (65 <=? n)%nat && (n <=? 90)%nat then ascii_of_nat (n + 32) else c.

(** [s.lower()] *)
Definition lower (s : string) : string := string_map lower_ascii s.

(** [s.replace(" ", "_")] *)
Definition replace_space (s : string) : string :=
  string_map (fun c => if Ascii.eqb c " "%char then "_"%char else c) s.

(** ** Insertion-ordered dictionaries *)

Section odict.
Context {K V : Type} `{EqDecision K}.

(** [d.get(k)] *)
Fixpoint dget (k : K) (d : list (K * V)) : option V :=
  match d with
  | [] => None
  | (k', v) :: d' => if decide (k' = k) then Some v else dget k d'
  end.

(** [k in d] *)
Definition dmem (k : K) (d : list (K * V)) : bool :=
  match dget k d with Some _ => true | None => false end.

(** [d[k] = v] *)
Fixpoint dset (k : K) (v : V) (d : list (K * V)) : list (K * V) :=
  match d with
  | [] => [(k, v)]
  | (k', v') :: d' =>
      if decide (k' = k) then (k', v) :: d' else (k', v') :: dset k v d'
  end.

(** [d.pop(k)], the dictionary that is left *)
Fixpoint dpop (k : K) (d : list (K * V)) : list (K * V) :=
  match d with
  | [] => []
  | (k', v') :: d' =>
      if decide (k' = k) then d' else (k', v') :: dpop k d'
  end.

Definition dkeys (d : list (K * V)) : list K := d.*1.
Definition dvalues (d : list (K * V)) : list V := d.*2.

(** A Python dict holds each key once. *)
Definition dict_wf (d : list (K * V)) : Prop := NoDup (dkeys d).
End odict.

Abbreviation odict K V := (list (K * V)).

(** ** Outcomes of a call *)

Inductive exn :=
  | KeyError (key : string)
  | AttributeError (what : string)
  | JSONDecodeError.

Inductive outcome (A : Type) :=
  | Return (a : A)
  | Raise (e : exn).
Arguments Return {A} a.
Arguments Raise {A} e.

Definition obind {A B} (x : outcome A) (f : A -> outcome B) : outcome B :=
  match x with
  | Return a => f a
  | Raise e => Raise e
  end.

(** A [for] loop whose body may raise. *)
Fixpoint ofold {A S} (body : S -> A -> outcome S) (s : S) (l : list A)
  : outcome S :=
  match l with
  | [] => Return s
  | a :: l' => obind (body s a) (fun s' => ofold body s' l')
  end.

(** ** The cache document *)

(** One entry of ["issues"]: the six keys both writers store. *)
Record issue := {
  i_id : jval;
  i_name : jval;
  i_state : jval;
  i_state_id : jval;
  i_priority : jval;
  i_updated_at : jval
}.

(** The document.  Every document these scripts write has the five
    entries, so the record has them all: the [.get("issues", {})] and
    [.get("linked", {})] defaults of the readers, and the
    [if "linked" not in cache] of [add_link], are for a document that lacks
    an entry and do nothing here. *)
Record cache := {
  project : odict string jval;
  states : odict string jval;
  issues : odict string issue;
  linked : odict string string;
  lastSync : jval
}.

#[global] Instance issue_eq_dec : EqDecision issue.
Proof. solve_decision. Defined.

(** The skeleton [load_cache] returns when there is no file. *)
Definition empty_cache : cache :=
  {| project := []; states := []; issues := []; linked := [];
     lastSync := JNull |}.

(** The cache file: absent, present with text [json.loads] rejects, or
    present holding a document. *)
Inductive disk :=
  | NoFile
  | Garbage
  | Stored (doc : cache).

Record world := { file : disk; saves : nat }.

(** A script function: it reads and writes the world and returns or raises. *)
Definition prog (A : Type) := world -> world * outcome A.

Definition ret {A} (a : A) : prog A := fun w => (w, Return a).
Definition bind {A B} (m : prog A) (f : A -> prog B) : prog B :=
  fun w =>
    match m w with
    | (w', Return a) => f a w'
    | (w', Raise e) => (w', Raise e)
    end.
Definition lift {A} (x : outcome A) : prog A := fun w => (w, x).

Notation "'let*' x ':=' m 'in' k" := (bind m (fun x => k))
  (at level 10, x pattern, m at level 100, k at level 200).

(** [load_cache] of [sync_cache.py], [add_issue.py] and [add_link.py]
    (the three copies are the same text). *)
Definition load_cache : prog cache :=
  fun w =>
    match file w with
    | NoFile => (w, Return empty_cache)
    | Garbage => (w, Raise JSONDecodeError)
    | Stored doc => (w, Return doc)
    end.

Definition save_cache (c : cache) : prog unit :=
  fun w => ({| file := Stored c; saves := S (saves w) |}, Return tt).

(** ** sync_cache.py *)

Module SyncCache.

(** The snapshot handed to [sync_cache].  A field the code reads with
    [x["key"]] is an [option] ([None]: the key is missing); a field read
    with [x.get("key")] is [JNull] when missing. *)
Record project_desc := {
  proj_id : jval;
  proj_identifier : jval;
  proj_name : jval;
  proj_workspace : option jval
}.

Record state_desc := {
  state_id : option jval;
  state_name : option string;
  state_group : option string
}.

(** The ["state"] and ["priority"] of a snapshot issue: an object, of
    which the code reads ["id"], or a scalar. *)
Inductive jfield :=
  | FObject (obj_id : option jval)
  | FScalar (v : jval).

Record issue_desc := {
  issue_id : option jval;
  issue_name : option jval;
  issue_sequence_id : option jval;
  issue_state : option jfield;
  issue_priority : option jfield;
  issue_updated_at : jval
}.

Record snapshot := {
  data_project : option project_desc;
  data_states : option (list state_desc);
  data_issues : option (list issue_desc)
}.

Record sync_result := {
  issues_count : nat;
  states_count : nat;
  new : list string;
  updated : list string
}.

Record touch_result := { touched_issues_count : nat }.

Definition map_state_group_to_status (group : string) : string :=
  let mapping :=
    [("backlog", "backlog"); ("unstarted", "pending");
     ("started", "in_progress"); ("completed", "completed");
     ("cancelled", "cancelled")] in
  default group (dget group mapping).

Definition get_state_name (sid : jval)
    (states_by_id : odict jval state_desc) : string :=
  match dget sid states_by_id with
  | Some state => default "Unknown" (state_name state)
  | None => "Unknown"
  end.

(** Lines 79-84: the project entry written from the descriptor. *)
Definition update_project (proj : project_desc) (c : cache)
  : odict string jval :=
  [("id", proj_id proj);
   ("identifier", proj_identifier proj);
   ("name", proj_name proj);
   ("workspace",
     match proj_workspace proj with
     | Some w => w
     | None => default JNull (dget "workspace" (project c))
     end)].

(** Lines 89-100: the body of the loop over [data["states"]]; the loop
    state is [states_by_id] and [cache["states"]]. *)
Definition state_step
    (acc : odict jval state_desc * odict string jval) (state : state_desc)
  : outcome (odict jval state_desc * odict string jval) :=
  let '(states_by_id, cstates) := acc in
  match state_id state with
  | None => Raise (KeyError "id")
  | Some sid =>
      let states_by_id := dset sid state states_by_id in
      let group := default "" (state_group state) in
      let status_key := map_state_group_to_status group in
      match state_name state with
      | None => Raise (KeyError "name")
      | Some name =>
          let name_lower := replace_space (lower name) in
          if bool_decide (name_lower ∈ ["in_review"; "ready_to_merge"])
          then Return (states_by_id, dset name_lower sid cstates)
          else if negb (dmem status_key cstates)
          then Return (states_by_id, dset status_key sid cstates)
          else Return (states_by_id, cstates)
      end
  end.

(** Line 108 *)
Definition issue_state_id (i : issue_desc) : jval :=
  match issue_state i with
  | Some (FObject oid) => default JNull oid
  | Some (FScalar v) => v
  | None => JNull
  end.

(** Line 116 *)
Definition issue_priority_id (i : issue_desc) : jval :=
  match issue_priority i with
  | Some (FObject oid) => default (JStr "none") oid
  | Some (FScalar v) => v
  | None => JStr "none"
  end.

(** Line 107 *)
Definition issue_key_of (identifier seq : jval) : string :=
  py_str identifier +:+ "-" +:+ py_str seq.

Record issue_acc := {
  acc_issues : odict string issue;
  acc_new : list string;
  acc_updated : list string
}.

(** Lines 107-125: the body of the loop over [data["issues"]]. *)
Definition issue_step (identifier : jval)
    (states_by_id : odict jval state_desc)
    (acc : issue_acc) (i : issue_desc) : outcome issue_acc :=
  match issue_sequence_id i with
  | None => Raise (KeyError "sequence_id")
  | Some seq =>
      let issue_key := issue_key_of identifier seq in
      let sid := issue_state_id i in
      let state_name :=
        match states_by_id with
        | [] => "Unknown"
        | _ => get_state_name sid states_by_id
        end in
      match issue_id i with
      | None => Raise (KeyError "id")
      | Some iid =>
          match issue_name i with
          | None => Raise (KeyError "name")
          | Some iname =>
              let issue_data :=
                {| i_id := iid; i_name := iname;
                   i_state := JStr state_name; i_state_id := sid;
                   i_priority := issue_priority_id i;
                   i_updated_at := issue_updated_at i |} in
              let '(new_issues, updated_issues) :=
                match dget issue_key (acc_issues acc) with
                | None => (acc_new acc ++ [issue_key], acc_updated acc)
                | Some old =>
                    if bool_decide
                         (i_updated_at old ≠ i_updated_at issue_data)
                    then (acc_new acc, acc_updated acc ++ [issue_key])
                    else (acc_new acc, acc_updated acc)
                end in
              Return {| acc_issues := dset issue_key issue_data
                                        (acc_issues acc);
                        acc_new := new_issues;
                        acc_updated := updated_issues |}
          end
      end
  end.

(** Line 104 *)
Definition project_identifier (proj : odict string jval) : jval :=
  default (JStr "PROJ") (dget "identifier" proj).

(** Lines 73-128 of [sync_cache]: everything between [load_cache] and
    [save_cache], on the loaded document. *)
Definition sync_doc (data : snapshot) (now : string) (c : cache)
  : outcome (cache * sync_result) :=
  let proj :=
    match data_project data with
    | Some p => update_project p c
    | None => project c
    end in
  obind
    (match data_states data with
     | Some l => ofold state_step ([], states c) l
     | None => Return ([], states c)
     end)
    (fun '(states_by_id, cstates) =>
  obind
    (match data_issues data with
     | Some l =>
         ofold (issue_step (project_identifier proj) states_by_id)
           {| acc_issues := issues c; acc_new := []; acc_updated := [] |} l
     | None =>
         Return {| acc_issues := issues c; acc_new := [];
                   acc_updated := [] |}
     end)
    (fun acc =>
       Return
         ({| project := proj; states := cstates;
             issues := acc_issues acc; linked := linked c;
             lastSync := JStr now |},
          {| issues_count := length (acc_issues acc);
             states_count := length cstates;
             new := acc_new acc;
             updated := acc_updated acc |}))).

Definition sync_cache (data : snapshot) (now : string) : prog sync_result :=
  let* c := load_cache in
  let* (c', result) := lift (sync_doc data now c) in
  let* _ := save_cache c' in
  ret result.

Definition touch_cache (now : string) : prog touch_result :=
  let* c := load_cache in
  let c' := {| project := project c; states := states c;
               issues := issues c; linked := linked c;
               lastSync := JStr now |} in
  let* _ := save_cache c' in
  ret {| touched_issues_count := length (issues c') |}.

(** The text given with [--data] or on standard input, as [json.loads]
    reads it: rejected, or the snapshot it denotes. *)
Inductive payload :=
  | BadJson
  | Json (data : snapshot).

Definition json_loads (p : payload) : prog snapshot :=
  match p with
  | BadJson => lift (Raise JSONDecodeError)
  | Json data => ret data
  end.

(** The command line: [--touch], a non-empty [--data] ([None] when the
    option is absent or empty), and standard input ([None] when it is a
    terminal). *)
Record args := {
  arg_touch : bool;
  arg_data : option payload;
  stdin : option payload
}.

Inductive main_result :=
  | MainTouched (r : touch_result)
  | MainSynced (r : sync_result)
  | MainNoData (error : string).

(** Lines 162-171 of [main]. *)
Definition main (a : args) (now : string) : prog main_result :=
  if arg_touch a then
    let* r := touch_cache now in ret (MainTouched r)
  else
    match arg_data a with
    | Some p =>
        let* data := json_loads p in
        let* r := sync_cache data now in ret (MainSynced r)
    | None =>
        match stdin a with
        | Some p =>
            let* data := json_loads p in
            let* r := sync_cache data now in ret (MainSynced r)
        | None =>
            ret (MainNoData
              "No data provided. Use --data, --touch, or pipe JSON to stdin.")
        end
    end.

End SyncCache.

(** ** add_issue.py *)

Module AddIssue.

(** [issue_data]: the fields [add_issue] reads.  [f_priority] and
    [f_updated_at] are read with a default, so their absence shows. *)
Record issue_fields := {
  f_id : jval;
  f_name : jval;
  f_state : jval;
  f_state_id : jval;
  f_priority : option jval;
  f_updated_at : option jval
}.

Inductive result :=
  | Upserted (issue_key : string) (action : string) (name : jval)
  | Rejected (error : string).

Definition add_issue (key : string) (issue_data : issue_fields)
    (now : string) : prog result :=
  let* c := load_cache in
  let action := if dmem key (issues c) then "updated" else "added" in
  let entry :=
    {| i_id := f_id issue_data;
       i_name := f_name issue_data;
       i_state := f_state issue_data;
       i_state_id := f_state_id issue_data;
       i_priority := default (JStr "none") (f_priority issue_data);
       i_updated_at := default (JStr now) (f_updated_at issue_data) |} in
  let c' := {| project := project c; states := states c;
               issues := dset key entry (issues c); linked := linked c;
               lastSync := lastSync c |} in
  let* _ := save_cache c' in
  ret (Upserted key action (f_name issue_data)).

(** Lines 96-99 of [main]: the entry point checks the two required
    fields before it calls [add_issue]. *)
Definition main (key : string) (issue_data : issue_fields) (now : string)
  : prog result :=
  if negb (truthy (f_id issue_data)) || negb (truthy (f_name issue_data))
  then ret (Rejected "Missing required fields: id and name")
  else add_issue key issue_data now.

End AddIssue.

(** ** add_link.py *)

Module AddLink.

Inductive link_result :=
  | Linked (linked_text : string) (issue_name : jval)
  | LinkFailed (error : string).

Inductive unlink_result :=
  | Unlinked (issue_key : string) (was_linked_to : string)
  | UnlinkFailed (error : string).

(** Lines 61-66: the scan of [linked.items()] for another issue that
    holds [task_file]; the first one found is reported. *)
Fixpoint task_owner (issue_key task_file : string)
    (items : odict string string) : option string :=
  match items with
  | [] => None
  | (k, v) :: items' =>
      if bool_decide (v = task_file) && bool_decide (k ≠ issue_key)
      then Some k
      else task_owner issue_key task_file items'
  end.

(** Truthiness of [d.get(k)] on a dict of strings. *)
Definition opt_truthy (o : option string) : bool :=
  match o with
  | Some s => str_truthy s
  | None => false
  end.

Definition add_link (issue_key task_file : string) : prog link_result :=
  let* c := load_cache in
  if negb (dmem issue_key (issues c)) then
    ret (LinkFailed ("Issue " +:+ issue_key +:+
                     " not found in cache. Run plane-sync first."))
  else
    let existing := dget issue_key (linked c) in
    if opt_truthy existing && bool_decide (existing ≠ Some task_file) then
      ret (LinkFailed ("Issue " +:+ issue_key +:+ " already linked to "
                       +:+ default "" existing +:+ ". Use --remove first."))
    else
      match task_owner issue_key task_file (linked c) with
      | Some k =>
          ret (LinkFailed ("Task " +:+ task_file +:+
                           " already linked to " +:+ k +:+ "."))
      | None =>
          let c' := {| project := project c; states := states c;
                       issues := issues c;
                       linked := dset issue_key task_file (linked c);
                       lastSync := lastSync c |} in
          let* _ := save_cache c' in
          let issue_name :=
            match dget issue_key (issues c') with
            | Some i => i_name i
            | None => JStr ""
            end in
          ret (Linked (issue_key +:+ " ↔ " +:+ task_file) issue_name)
      end.

Definition remove_link (issue_key : string) : prog unlink_result :=
  let* c := load_cache in
  match dget issue_key (linked c) with
  | None =>
      ret (UnlinkFailed ("Issue " +:+ issue_key +:+
                         " is not linked to any task."))
  | Some task_file =>
      let c' := {| project := project c; states := states c;
                   issues := issues c;
                   linked := dpop issue_key (linked c);
                   lastSync := lastSync c |} in
      let* _ := save_cache c' in
      ret (Unlinked issue_key task_file)
  end.

Inductive main_result :=
  | MainLink (r : link_result)
  | MainUnlink (r : unlink_result)
  | MainUsage (error : string).

(** Lines 110-115 of [main]: [--remove] is looked at first, then a
    non-empty [--task]. *)
Definition main (issue : string) (task : option string) (remove : bool)
  : prog main_result :=
  if remove then
    let* r := remove_link issue in ret (MainUnlink r)
  else if opt_truthy task then
    let* r := add_link issue (default "" task) in ret (MainLink r)
  else ret (MainUsage "Provide --task to link or --remove to unlink").

End AddLink.

(** ** discover.py *)

Module Discover.

(** [load_cache] of [discover.py]: [None] when there is no file. *)
Definition load_cache : prog (option cache) :=
  fun w =>
    match file w with
    | NoFile => (w, Return None)
    | Garbage => (w, Raise JSONDecodeError)
    | Stored doc => (w, Return (Some doc))
    end.

(** The tasks directory as [discover] sees it: the names
    [get_task_files] enumerates, whether [tasks_dir / name] exists, and
    the mapping [parse_task_frontmatter] returns for that file ([None]
    when the text has no frontmatter block). *)
Record tasks_dir := {
  get_task_files : list string;
  task_exists : string -> bool;
  parse_task_frontmatter : string -> option (odict string string)
}.

Inductive unlinked_task :=
  | Claiming (file_name : string) (claims_issue : string)
             (status : option string)
  | Bare (file_name : string) (status : option string).

Record mismatch := {
  m_issue : string;
  m_task : string;
  m_task_status : string;
  m_plane_state : string;
  m_expected_state : string
}.

Record summary := {
  n_unlinked_issues : nat;
  n_unlinked_tasks : nat;
  n_mismatches : nat;
  total_issues : nat;
  total_linked : nat
}.

Record report := {
  unlinked_issues : odict string (jval * jval);
  unlinked_tasks : list unlinked_task;
  status_mismatches : list mismatch;
  report_summary : summary
}.

Inductive discover_result :=
  | NoCache (error : string)
  | Found (r : report).

Definition map_task_status_to_plane_state (status : string) : string :=
  let mapping :=
    [("backlog", "Backlog"); ("pending", "Todo");
     ("in_progress", "In Progress"); ("in-progress", "In Progress");
     ("completed", "Done"); ("cancelled", "Cancelled")] in
  default status (dget (lower status) mapping).

(** [if frontmatter:] holds for a mapping with at least one entry. *)
Definition frontmatter_truthy (fm : option (odict string string)) : bool :=
  match fm with
  | Some (_ :: _) => true
  | _ => false
  end.

(** Lines 84-89 *)
Definition find_unlinked_issues (issues : odict string issue)
    (linked : odict string string) : odict string (jval * jval) :=
  foldl (fun acc '(key, i) =>
           if negb (dmem key linked)
           then dset key (i_name i, i_state i) acc
           else acc)
        [] issues.

(** Lines 97-114: what one enumerated file adds to [unlinked_tasks]. *)
Definition unlinked_task_entry (td : tasks_dir)
    (linked : odict string string) (task_name : string)
  : list unlinked_task :=
  if negb (bool_decide (task_name ∈ dvalues linked)) then
    let frontmatter := parse_task_frontmatter td task_name in
    if frontmatter_truthy frontmatter then
      let fm := default [] frontmatter in
      let plane_issue := dget "plane_issue" fm in
      match plane_issue with
      | Some p =>
          if str_truthy p && negb (dmem p linked)
          then [Claiming task_name p (dget "status" fm)]
          else if negb (str_truthy p)
          then [Bare task_name (dget "status" fm)]
          else []
      | None => [Bare task_name (dget "status" fm)]
      end
    else []
  else [].

Definition find_unlinked_tasks (td : tasks_dir)
    (linked : odict string string) : list unlinked_task :=
  flat_map (unlinked_task_entry td linked) (get_task_files td).

(** Lines 120-139: the body of the loop over [linked.items()]. *)
Definition mismatch_step (td : tasks_dir) (issues : odict string issue)
    (acc : list mismatch) (item : string * string)
  : outcome (list mismatch) :=
  let '(issue_key, task_file) := item in
  if negb (task_exists td task_file) then Return acc
  else
    let frontmatter := parse_task_frontmatter td task_file in
    if negb (frontmatter_truthy frontmatter) then Return acc
    else
      let fm := default [] frontmatter in
      let task_status := default "" (dget "status" fm) in
      let expected_state := map_task_status_to_plane_state task_status in
      let actual_state :=
        match dget issue_key issues with
        | Some i => i_state i
        | None => JStr ""
        end in
      match actual_state with
      | JStr actual =>
          if bool_decide (lower expected_state ≠ lower actual)
          then Return (acc ++ [{| m_issue := issue_key;
                                  m_task := task_file;
                                  m_task_status := task_status;
                                  m_plane_state := actual;
                                  m_expected_state := expected_state |}])
          else Return acc
      | _ => Raise (AttributeError "lower")
      end.

Definition discover (cache_path : string) (td : tasks_dir)
    (check_status : bool) : prog discover_result :=
  let* loaded := load_cache in
  match loaded with
  | None =>
      ret (NoCache ("Cache not found at " +:+ cache_path +:+
                    ". Run plane-sync first."))
  | Some c =>
      let unlinked_issues := find_unlinked_issues (issues c) (linked c) in
      let unlinked_tasks := find_unlinked_tasks td (linked c) in
      let* status_mismatches :=
        lift (if check_status
              then ofold (mismatch_step td (issues c)) [] (linked c)
              else Return []) in
      ret (Found
             {| unlinked_issues := unlinked_issues;
                unlinked_tasks := unlinked_tasks;
                status_mismatches := status_mismatches;
                report_summary :=
                  {| n_unlinked_issues := length unlinked_issues;
                     n_unlinked_tasks := length unlinked_tasks;
                     n_mismatches := length status_mismatches;
                     total_issues := length (issues c);
                     total_linked := length (linked c) |} |})
  end.

End Discover.

(** ** discover.py: the frontmatter parser

    [parse_task_frontmatter] on the text [read_text] returns.  A
    character of a [string] is a code point below 256. *)

Module Frontmatter.

Definition newline : ascii := "010"%char.
Definition colon : ascii := ":"%char.

(** [c.isspace()] on the code points below 256: tab to carriage
    return, the four separators 28-31, the space, NEL and the
    no-break space. *)
Definition is_space (c : ascii) : bool :=
  let n := nat_of_ascii c in
  ((9 <=? n)%nat && (n <=? 13)%nat) || ((28 <=? n)%nat && (n <=? 32)%nat)
  || (n =? 133)%nat || (n =? 160)%nat.

(** [s.lstrip()], [s.rstrip()] and [s.strip()] *)
Fixpoint lstrip (s : string) : string :=
  match s with
  | EmptyString => EmptyString
  | String c s' => if is_space c then lstrip s' else s
  end.

Fixpoint rstrip (s : string) : string :=
  match s with
  | EmptyString => EmptyString
  | String c s' =>
      match rstrip s' with
      | EmptyString => if is_space c then EmptyString
                       else String c EmptyString
      | r => String c r
      end
  end.

Definition strip (s : string) : string := rstrip (lstrip s).

(** [s.split(sep)] for a separator of one character: the pieces between
    the separators, one more than there are separators. *)
Fixpoint split (sep : ascii) (s : string) : list string :=
  match s with
  | EmptyString => [EmptyString]
  | String c s' =>
      if Ascii.eqb c sep then EmptyString :: split sep s'
      else match split sep s' with
           | piece :: pieces => String c piece :: pieces
           | [] => [String c EmptyString]
           end
  end.

(** [sep in s] and [s.split(sep, 1)] in one: [None] when the separator
    does not occur, the text before and after its first occurrence
    otherwise. *)
Fixpoint split_once (sep : ascii) (s : string) : option (string * string) :=
  match s with
  | EmptyString => None
  | String c s' =>
      if Ascii.eqb c sep then Some (EmptyString, s')
      else match split_once sep s' with
           | Some (before, after) => Some (String c before, after)
           | None => None
           end
  end.

(** The rest of [s] after the prefix [p], when [s] starts with [p]. *)
Fixpoint strip_prefix (p s : string) : option string :=
  match p, s with
  | EmptyString, _ => Some s
  | String a p', String b s' =>
      if Ascii.eqb a b then strip_prefix p' s' else None
  | String _ _, EmptyString => None
  end.

Definition opening : string := "---" +:+ String newline EmptyString.
Definition closing : string := String newline "---".

(** The lazy group [(.*?)] followed by [\n---], with [re.DOTALL]: the
    shortest prefix of [s] after which the closing marker stands. *)
Fixpoint lazy_group (s : string) : option string :=
  match strip_prefix closing s with
  | Some _ => Some EmptyString
  | None =>
      match s with
      | EmptyString => None
      | String c s' => String c <$> lazy_group s'
      end
  end.

(** Line 39: [re.match(r'^---\n(.*?)\n---', content, re.DOTALL)], and its
    [group(1)]. *)
Definition frontmatter_match (content : string) : option string :=
  match strip_prefix opening content with
  | Some rest => lazy_group rest
  | None => None
  end.

(** Lines 45-47: the body of the loop over the lines. *)
Definition parse_line (frontmatter : odict string string) (line : string)
  : odict string string :=
  match split_once colon line with
  | Some (key, value) => dset (strip key) (strip value) frontmatter
  | None => frontmatter
  end.

(** Lines 39-49 *)
Definition parse_task_frontmatter (content : string)
  : option (odict string string) :=
  match frontmatter_match content with
  | None => None
  | Some group => Some (foldl parse_line [] (split newline group))
  end.

(** [tasks_dir] as [discover] uses it, from the directory's files: the
    names [glob("*.md")] enumerates, in its order, and the text of each
    file that exists. *)
Definition tasks_dir_of (names : list string)
    (read_text : string -> option string) : Discover.tasks_dir :=
  {| Discover.get_task_files := names;
     Discover.task_exists :=
       fun name => bool_decide (is_Some (read_text name));
     Discover.parse_task_frontmatter :=
       fun name =>
         match read_text name with
         | Some content => parse_task_frontmatter content
         | None => None
         end |}.

End Frontmatter.

(** ** read_cache.py *)

Module ReadCache.

(** [load_cache] of [read_cache.py]: [None] when there is no file. *)
Definition load_cache : prog (option cache) :=
  fun w =>
    match file w with
    | NoFile => (w, Return None)
    | Garbage => (w, Raise JSONDecodeError)
    | Stored doc => (w, Return (Some doc))
    end.

Record summary := {
  s_project : jval;
  s_project_name : jval;
  s_project_id : jval;
  s_workspace : jval;
  s_issues_count : nat;
  s_linked_count : nat;
  s_states_count : nat;
  s_last_sync : jval
}.

Definition get_summary (c : cache) : summary :=
  {| s_project := default (JStr "Unknown") (dget "identifier" (project c));
     s_project_name := default (JStr "Unknown") (dget "name" (project c));
     s_project_id := default JNull (dget "id" (project c));
     s_workspace := default JNull (dget "workspace" (project c));
     s_issues_count := length (issues c);
     s_linked_count := length (linked c);
     s_states_count := length (states c);
     s_last_sync := lastSync c |}.

(** Line 50: one item of the comprehension that filters by state;
    [.lower()] is asked of whatever the issue stores as its state. *)
Definition filter_step (state_filter : string) (acc : odict string issue)
    (item : string * issue) : outcome (odict string issue) :=
  let '(k, v) := item in
  match i_state v with
  | JStr state =>
      if bool_decide (lower state = lower state_filter)
      then Return (dset k v acc)
      else Return acc
  | _ => Raise (AttributeError "lower")
  end.

Record issues_view := {
  v_issues : odict string (jval * jval);
  v_count : nat
}.

(** Lines 53-58: the condensed format. *)
Definition condense (issues : odict string issue)
  : odict string (jval * jval) :=
  foldl (fun result '(key, i) => dset key (i_name i, i_state i) result)
        [] issues.

Definition get_issues (c : cache) (state_filter : option string)
  : outcome issues_view :=
  obind
    (match state_filter with
     | Some f =>
         if str_truthy f then ofold (filter_step f) [] (issues c)
         else Return (issues c)
     | None => Return (issues c)
     end)
    (fun issues =>
       let result := condense issues in
       Return {| v_issues := result; v_count := length result |}).

Inductive issue_view :=
  | IssueNotFound (error : string)
  | IssueFound (issue_key : string) (i : issue) (linked_task : option string).

Definition get_issue (c : cache) (issue_key : string) : issue_view :=
  match dget issue_key (issues c) with
  | None => IssueNotFound ("Issue " +:+ issue_key +:+ " not found in cache")
  | Some i => IssueFound issue_key i (dget issue_key (linked c))
  end.

Record linked_entry := {
  l_task : string;
  l_name : jval;
  l_state : jval
}.

Record linked_view := {
  v_linked : odict string linked_entry;
  v_linked_count : nat
}.

(** Lines 80-88; [issues.get(issue_key, {})] gives an entry without name
    and state for a link whose issue is not cached. *)
Definition get_linked (c : cache) : linked_view :=
  let result :=
    foldl (fun result '(issue_key, task_file) =>
             let issue := dget issue_key (issues c) in
             dset issue_key
               {| l_task := task_file;
                  l_name := match issue with
                            | Some i => i_name i
                            | None => JNull
                            end;
                  l_state := match issue with
                             | Some i => i_state i
                             | None => JNull
                             end |}
               result)
          [] (linked c) in
  {| v_linked := result; v_linked_count := length result |}.

Definition get_states (c : cache) : odict string jval := states c.

Record unlinked_view := {
  v_unlinked : odict string (jval * jval);
  v_unlinked_count : nat
}.

(** Lines 101-108 *)
Definition get_unlinked (c : cache) : unlinked_view :=
  let unlinked :=
    foldl (fun unlinked '(key, i) =>
             if negb (dmem key (linked c))
             then dset key (i_name i, i_state i) unlinked
             else unlinked)
          [] (issues c) in
  {| v_unlinked := unlinked; v_unlinked_count := length unlinked |}.

(** The command line: [--issue] ([None] when absent), the four flags
    and [--state-filter]. *)
Record args := {
  arg_issue : option string;
  arg_issues : bool;
  arg_linked : bool;
  arg_unlinked : bool;
  arg_states : bool;
  arg_state_filter : option string
}.

Inductive main_result :=
  | MainNoCache (error : string)
  | MainIssue (v : issue_view)
  | MainIssues (v : issues_view)
  | MainLinked (v : linked_view)
  | MainUnlinked (v : unlinked_view)
  | MainStates (s : odict string jval)
  | MainSummary (s : summary).

(** Lines 123-138 of [main]. *)
Definition main (cache_path : string) (a : args) : prog main_result :=
  let* loaded := load_cache in
  match loaded with
  | None =>
      ret (MainNoCache ("Cache not found at " +:+ cache_path +:+
                        ". Run plane-sync first."))
  | Some c =>
      if AddLink.opt_truthy (arg_issue a) then
        ret (MainIssue (get_issue c (default "" (arg_issue a))))
      else if arg_issues a then
        let* v := lift (get_issues c (arg_state_filter a)) in
        ret (MainIssues v)
      else if arg_linked a then ret (MainLinked (get_linked c))
      else if arg_unlinked a then ret (MainUnlinked (get_unlinked c))
      else if arg_states a then ret (MainStates (get_states c))
      else ret (MainSummary (get_summary c))
  end.

End ReadCache.

(** ** Vocabulary of the statements *)

(** The document [load_cache] hands to an operation started in [w]. *)
Definition loads (w : world) (c : cache) : Prop :=
  load_cache w = (w, Return c).

Definition not_found_error (issue_key : string) : string :=
  "Issue " +:+ issue_key +:+ " not found in cache. Run plane-sync first.".

Definition issue_conflict_error (issue_key existing : string) : string :=
  "Issue " +:+ issue_key +:+ " already linked to " +:+ existing +:+
  ". Use --remove first.".

Definition task_conflict_error (task_file k : string) : string :=
  "Task " +:+ task_file +:+ " already linked to " +:+ k +:+ ".".

Definition not_linked_error (issue_key : string) : string :=
  "Issue " +:+ issue_key +:+ " is not linked to any task.".





(** The operations that change the cache, with the inputs of one call:
    the functions of the scripts, and the entry point of [add_issue.py]
    with its check of the required fields ([OpUpsert]). *)
Inductive op :=
  | OpSync (data : SyncCache.snapshot) (now : string)
  | OpTouch (now : string)
  | OpUpsert (key : string) (issue_data : AddIssue.issue_fields)
             (now : string)
  | OpAddIssue (key : string) (issue_data : AddIssue.issue_fields)
               (now : string)
  | OpLink (issue_key task_file : string)
  | OpUnlink (issue_key : string).

(** The world one call leaves behind, whether it returned or raised. *)
Definition run_op (o : op) (w : world) : world :=
  match o with
  | OpSync data now => (SyncCache.sync_cache data now w).1
  | OpTouch now => (SyncCache.touch_cache now w).1
  | OpUpsert key issue_data now => (AddIssue.main key issue_data now w).1
  | OpAddIssue key issue_data now =>
      (AddIssue.add_issue key issue_data now w).1
  | OpLink issue_key task_file => (AddLink.add_link issue_key task_file w).1
  | OpUnlink issue_key => (AddLink.remove_link issue_key w).1
  end.

(** The worlds the operations lead to from the empty skeleton. *)
Inductive reachable : world -> Prop :=
  | reach_empty w : loads w empty_cache -> reachable w
  | reach_step w o : reachable w -> reachable (run_op o w).

(** [linked] relates issue keys and task files one to one. *)
Definition links_injective (c : cache) : Prop :=
  (forall k t1 t2, (k, t1) ∈ linked c -> (k, t2) ∈ linked c -> t1 = t2) /\
  (forall k1 k2 t, (k1, t) ∈ linked c -> (k2, t) ∈ linked c -> k1 = k2).

(** The invariant the operations keep: every key once, every task file
    under one key. *)
Definition links_inv (c : cache) : Prop :=
  dict_wf (linked c) /\
  forall k1 k2 t,
    dget k1 (linked c) = Some t -> dget k2 (linked c) = Some t -> k1 = k2.

Definition world_inv (w : world) : Prop :=
  exists c, loads w c /\ links_inv c.

(** Sample inputs. *)
Definition sample_issue : issue :=
  {| i_id := JStr "u-1"; i_name := JStr "First issue";
     i_state := JStr "In Progress"; i_state_id := JStr "s2";
     i_priority := JStr "none"; i_updated_at := JStr "2025-01-01T00:00:00Z" |}.

Definition sample_fields : AddIssue.issue_fields :=
  {| AddIssue.f_id := JStr "u-1"; AddIssue.f_name := JStr "First issue";
     AddIssue.f_state := JStr "In Progress";
     AddIssue.f_state_id := JStr "s2";
     AddIssue.f_priority := Some (JStr "none");
     AddIssue.f_updated_at := Some (JStr "2025-01-01T00:00:00Z") |}.

Definition fresh_world : world := {| file := NoFile; saves := 0 |}.

(** The world after [add_issue.py --key CCPRISM-1 ...]. *)
Definition one_issue_world : world :=
  run_op (OpUpsert "CCPRISM-1" sample_fields "2025-01-02T00:00:00Z")
    fresh_world.

(** ... and after [add_link.py --issue CCPRISM-1 --task a.md]. *)
Definition one_link_world : world :=
  run_op (OpLink "CCPRISM-1" "a.md") one_issue_world.



(** A loop that only assigns into one dictionary is a list of writes:
    [d[k] = v] ([true]) or [if k not in d: d[k] = v] ([false]). *)
Section writes.
Context {K V : Type} `{EqDecision K}.

Definition apply_write (d : odict K V) (w : bool * K * V) : odict K V :=
  let '(always, k, v) := w in
  if always || negb (dmem k d) then dset k v d else d.

Definition run_writes (ws : list (bool * K * V)) (d : odict K V)
  : odict K V :=
  foldl apply_write d ws.

(** The value the last unconditional write to [k] leaves. *)
Fixpoint last_write (ws : list (bool * K * V)) (k : K) : option V :=
  match ws with
  | [] => None
  | (always, k', v') :: ws' =>
      match last_write ws' k with
      | Some v => Some v
      | None => if always && bool_decide (k' = k) then Some v' else None
      end
  end.

(** The writes to the keys other than [k0]. *)
Fixpoint other_writes (k0 : K) (ws : list (bool * K * V))
  : list (bool * K * V) :=
  match ws with
  | [] => []
  | (always, k, v) :: ws' =>
      if decide (k = k0) then other_writes k0 ws'
      else (always, k, v) :: other_writes k0 ws'
  end.
End writes.

(** ** The sync loops as writes *)

Module SyncSpec.
Import SyncCache.

(** A state entry carries the two keys the loop reads with [state[...]]. *)
Definition state_valid (st : state_desc) : Prop :=
  is_Some (state_id st) /\ is_Some (state_name st).

(** [name_lower] and [status_key] of the loop body, and whether the name
    is one of the two kept apart. *)
Definition normalized_name (st : state_desc) : string :=
  replace_space (lower (default "" (state_name st))).

Definition is_special (st : state_desc) : bool :=
  bool_decide (normalized_name st ∈ ["in_review"; "ready_to_merge"]).

Definition status_key (st : state_desc) : string :=
  map_state_group_to_status (default "" (state_group st)).

(** The assignment one state entry makes into [cache["states"]]. *)
Definition state_write (st : state_desc) : bool * string * jval :=
  (is_special st,
   if is_special st then normalized_name st else status_key st,
   default JNull (state_id st)).

(** [states_by_id] after the loop over [l]. *)
Definition index_states (states_by_id : odict jval state_desc)
    (l : list state_desc) : odict jval state_desc :=
  foldl (fun sbi st => dset (default JNull (state_id st)) st sbi)
        states_by_id l.

(** The first of the keys read with [issue[...]] that the entry lacks,
    in the order the loop body reads them. *)
Definition first_missing (e : issue_desc) : option string :=
  match issue_sequence_id e, issue_id e, issue_name e with
  | None, _, _ => Some "sequence_id"
  | Some _, None, _ => Some "id"
  | Some _, Some _, None => Some "name"
  | Some _, Some _, Some _ => None
  end.

Definition issue_valid (e : issue_desc) : Prop := first_missing e = None.

Definition entry_key (identifier : jval) (e : issue_desc) : string :=
  issue_key_of identifier (default JNull (issue_sequence_id e)).

(** [issue_data] of lines 111-118. *)
Definition issue_record (states_by_id : odict jval state_desc)
    (e : issue_desc) : issue :=
  {| i_id := default JNull (issue_id e);
     i_name := default JNull (issue_name e);
     i_state :=
       JStr match states_by_id with
            | [] => "Unknown"
            | _ => get_state_name (issue_state_id e) states_by_id
            end;
     i_state_id := issue_state_id e;
     i_priority := issue_priority_id e;
     i_updated_at := issue_updated_at e |}.

Definition issue_write (identifier : jval)
    (states_by_id : odict jval state_desc) (e : issue_desc)
  : bool * string * issue :=
  (true, entry_key identifier e, issue_record states_by_id e).

(** What one valid entry does to the loop state (lines 120-125). *)
Definition issue_effect (identifier : jval)
    (states_by_id : odict jval state_desc) (acc : issue_acc)
    (e : issue_desc) : issue_acc :=
  let key := entry_key identifier e in
  {| acc_issues := dset key (issue_record states_by_id e) (acc_issues acc);
     acc_new :=
       acc_new acc ++
       match dget key (acc_issues acc) with
       | None => [key]
       | Some _ => []
       end;
     acc_updated :=
       acc_updated acc ++
       match dget key (acc_issues acc) with
       | Some old =>
           if bool_decide (i_updated_at old ≠ issue_updated_at e)
           then [key] else []
       | None => []
       end |}.

Definition sync_project (data : snapshot) (c : cache) : odict string jval :=
  match data_project data with
  | Some p => update_project p c
  | None => project c
  end.

Definition snapshot_states (data : snapshot) : list state_desc :=
  default [] (data_states data).

Definition snapshot_issues (data : snapshot) : list issue_desc :=
  default [] (data_issues data).

Definition snapshot_valid (data : snapshot) : Prop :=
  Forall state_valid (snapshot_states data) /\
  Forall issue_valid (snapshot_issues data).

(** The identifier and the state index the issue loop of this sync uses. *)
Definition sync_identifier (data : snapshot) (c : cache) : jval :=
  project_identifier (sync_project data c).

Definition sync_index (data : snapshot) : odict jval state_desc :=
  index_states [] (snapshot_states data).

(** The document a sync that does not raise saves. *)
Definition synced (data : snapshot) (now : string) (c : cache) : cache :=
  {| project := sync_project data c;
     states := run_writes (state_write <$> snapshot_states data) (states c);
     issues :=
       run_writes
         (issue_write (sync_identifier data c) (sync_index data)
            <$> snapshot_issues data)
         (issues c);
     linked := linked c;
     lastSync := JStr now |}.

Definition sync_acc (data : snapshot) (c : cache) : issue_acc :=
  foldl (issue_effect (sync_identifier data c) (sync_index data))
        {| acc_issues := issues c; acc_new := []; acc_updated := [] |}
        (snapshot_issues data).
End SyncSpec.


(** The three states of the specification's example. *)
Definition sample_states : list SyncCache.state_desc :=
  [ {| SyncCache.state_id := Some (JStr "s1");
       SyncCache.state_name := Some "Todo";
       SyncCache.state_group := Some "unstarted" |};
    {| SyncCache.state_id := Some (JStr "s2");
       SyncCache.state_name := Some "In Progress";
       SyncCache.state_group := Some "started" |};
    {| SyncCache.state_id := Some (JStr "s3");
       SyncCache.state_name := Some "In Review";
       SyncCache.state_group := Some "started" |} ].

Definition sample_entry (seq : Z) (updated_at : string)
  : SyncCache.issue_desc :=
  {| SyncCache.issue_id := Some (JStr "u-27");
     SyncCache.issue_name := Some (JStr "Ship it");
     SyncCache.issue_sequence_id := Some (JInt seq);
     SyncCache.issue_state := Some (SyncCache.FObject (Some (JStr "s2")));
     SyncCache.issue_priority := None;
     SyncCache.issue_updated_at := JStr updated_at |}.

Definition sample_snapshot : SyncCache.snapshot :=
  {| SyncCache.data_project :=
       Some {| SyncCache.proj_id := JStr "p-1";
               SyncCache.proj_identifier := JStr "CCPRISM";
               SyncCache.proj_name := JStr "Prism";
               SyncCache.proj_workspace := None |};
     SyncCache.data_states := Some sample_states;
     SyncCache.data_issues := Some [sample_entry 27 "2025-01-01T00:00:00Z"] |}.

(** A snapshot that lists sequence number 1 twice, with two timestamps. *)
Definition repeated_snapshot : SyncCache.snapshot :=
  {| SyncCache.data_project := None;
     SyncCache.data_states := None;
     SyncCache.data_issues :=
       Some [sample_entry 1 "2025-01-01T00:00:00Z";
             sample_entry 1 "2025-02-02T00:00:00Z"] |}.

(** A snapshot whose second issue lacks its ["name"]. *)
Definition malformed_snapshot : SyncCache.snapshot :=
  {| SyncCache.data_project := None;
     SyncCache.data_states := None;
     SyncCache.data_issues :=
       Some [sample_entry 1 "2025-01-01T00:00:00Z";
             {| SyncCache.issue_id := Some (JStr "u-2");
                SyncCache.issue_name := None;
                SyncCache.issue_sequence_id := Some (JInt 2);
                SyncCache.issue_state := None;
                SyncCache.issue_priority := None;
                SyncCache.issue_updated_at := JNull |}] |}.

(** The project's identifier is a string, or the project has no
    identifier entry and the placeholder stands in. *)
Definition known_identifier (proj : odict string jval) (ident : string)
  : Prop :=
  (dget "identifier" proj = None /\ ident = "PROJ") \/
  dget "identifier" proj = Some (JStr ident).

(** The delta rule as the specification words it: "updated" is decided
    against the cache as it was before this sync. *)
Definition updated_judged_before_sync : Prop :=
  forall data now w c w1 r l e,
    loads w c -> SyncCache.data_issues data = Some l ->
    SyncCache.sync_cache data now w = (w1, Return r) -> e ∈ l ->
    let key := SyncSpec.entry_key (SyncSpec.sync_identifier data c) e in
    key ∈ SyncCache.updated r <->
    exists old, dget key (issues c) = Some old /\
                i_updated_at old ≠ SyncCache.issue_updated_at e.

(** The failure rule as the specification words it: a malformed snapshot
    comes back to the caller as a result. *)
Definition malformed_sync_returns : Prop :=
  forall data now w c l bad,
    loads w c -> SyncCache.data_issues data = Some l -> bad ∈ l ->
    ¬ SyncSpec.issue_valid bad ->
    exists r, (SyncCache.sync_cache data now w).2 = Return r.

(** The load rule as the specification words it: invalid content comes
    back to the caller of an operation as a result. *)
Definition corrupt_cache_returns : Prop :=
  forall data now w,
    file w = Garbage ->
    exists r, (SyncCache.sync_cache data now w).2 = Return r.

(** The key the specification gives an entry: identifier, a dash, the
    sequence number. *)
Definition issue_key_text (ident : string) (e : SyncCache.issue_desc)
  : string :=
  ident +:+ "-" +:+ py_str (default JNull (SyncCache.issue_sequence_id e)).

(** ** Vocabulary of the discovery statements *)

Module DiscoverSpec.
Import Discover.

Definition entry_file (u : unlinked_task) : string :=
  match u with
  | Claiming file_name _ _ => file_name
  | Bare file_name _ => file_name
  end.

(** The frontmatter [if frontmatter:] lets through. *)
Definition has_frontmatter (td : tasks_dir) (name : string)
    (fm : odict string string) : Prop :=
  parse_task_frontmatter td name = Some fm /\ fm ≠ [].

Definition no_frontmatter (td : tasks_dir) (name : string) : Prop :=
  parse_task_frontmatter td name = None \/
  parse_task_frontmatter td name = Some [].

(** [issues.get(issue_key, {}).get("state", "")] *)
Definition stored_state (c : cache) (issue_key : string) : jval :=
  match dget issue_key (issues c) with
  | Some i => i_state i
  | None => JStr ""
  end.

(** What one link adds to [status_mismatches] when the stored state is a
    string. *)
Definition link_mismatch (td : tasks_dir) (c : cache)
    (item : string * string) : list mismatch :=
  let '(issue_key, task_file) := item in
  if task_exists td task_file
     && frontmatter_truthy (parse_task_frontmatter td task_file) then
    let fm := default [] (parse_task_frontmatter td task_file) in
    let task_status := default "" (dget "status" fm) in
    let expected_state := map_task_status_to_plane_state task_status in
    match stored_state c issue_key with
    | JStr actual =>
        if bool_decide (lower expected_state ≠ lower actual)
        then [{| m_issue := issue_key; m_task := task_file;
                 m_task_status := task_status; m_plane_state := actual;
                 m_expected_state := expected_state |}]
        else []
    | _ => []
    end
  else [].


(** A tasks directory with the single file [a.md]. *)
Definition single_task (fm : option (odict string string)) : tasks_dir :=
  {| get_task_files := ["a.md"];
     task_exists := fun name => bool_decide (name = "a.md");
     parse_task_frontmatter :=
       fun name => if bool_decide (name = "a.md") then fm else None |}.


(** Completeness as the specification words it: every enumerated file
    that is no link value is reported. *)
Definition unlinked_tasks_complete : Prop :=
  forall cache_path td check_status w c r name,
    file w = Stored c ->
    (discover cache_path td check_status w).2 = Return (Found r) ->
    name ∈ get_task_files td -> name ∉ dvalues (linked c) ->
    exists u, u ∈ unlinked_tasks r /\ entry_file u = name.

End DiscoverSpec.

(** ** Vocabulary of the further properties *)

(** What one call that saves does to the document. *)
Inductive cache_step (c : cache) : cache -> Prop :=
  | step_sync data now :
      SyncSpec.snapshot_valid data ->
      cache_step c (SyncSpec.synced data now c)
  | step_touch now :
      cache_step c
        {| project := project c; states := states c; issues := issues c;
           linked := linked c; lastSync := JStr now |}
  | step_upsert key entry :
      cache_step c
        {| project := project c; states := states c;
           issues := dset key entry (issues c); linked := linked c;
           lastSync := lastSync c |}
  | step_link issue_key task_file :
      is_Some (dget issue_key (issues c)) ->
      (forall existing,
         dget issue_key (linked c) = Some existing ->
         existing = "" \/ existing = task_file) ->
      AddLink.task_owner issue_key task_file (linked c) = None ->
      cache_step c
        {| project := project c; states := states c; issues := issues c;
           linked := dset issue_key task_file (linked c);
           lastSync := lastSync c |}
  | step_unlink issue_key :
      is_Some (dget issue_key (linked c)) ->
      cache_step c
        {| project := project c; states := states c; issues := issues c;
           linked := dpop issue_key (linked c); lastSync := lastSync c |}.

(** Every link key is a cached issue, and no dictionary repeats a key. *)
Definition links_known (c : cache) : Prop :=
  dict_wf (issues c) /\ dict_wf (linked c) /\
  forall k, is_Some (dget k (linked c)) -> is_Some (dget k (issues c)).

(** The calls of the command line: the three entry points that write. *)
Inductive cli :=
  | CliSync (a : SyncCache.args) (now : string)
  | CliAddIssue (key : string) (issue_data : AddIssue.issue_fields)
                (now : string)
  | CliLink (issue : string) (task : option string) (remove : bool).

Definition run_cli (o : cli) (w : world) : world :=
  match o with
  | CliSync a now => (SyncCache.main a now w).1
  | CliAddIssue key issue_data now => (AddIssue.main key issue_data now w).1
  | CliLink issue task remove => (AddLink.main issue task remove w).1
  end.

(** The worlds the command line leads to from the empty skeleton. *)
Inductive cli_reachable : world -> Prop :=
  | cli_empty w : loads w empty_cache -> cli_reachable w
  | cli_step w o : cli_reachable w -> cli_reachable (run_cli o w).

(** No link holds the empty task name. *)
Definition names_nonempty (c : cache) : Prop :=
  "" ∉ dvalues (linked c).

(** The name [get_state_name] finds for a state id among the states of
    one snapshot, read off the list: the name of the last state that
    carries the id, and [Unknown] when none does. *)
Definition state_name_of (sid : jval) (l : list SyncCache.state_desc)
  : string :=
  match last (filter (fun st => SyncCache.state_id st = Some sid) l) with
  | Some st => default "Unknown" (SyncCache.state_name st)
  | None => "Unknown"
  end.

(** The first of the keys read with [state[...]] that a state entry
    lacks, in the order the loop body reads them. *)
Definition state_first_missing (st : SyncCache.state_desc) : option string :=
  match SyncCache.state_id st, SyncCache.state_name st with
  | None, _ => Some "id"
  | Some _, None => Some "name"
  | Some _, Some _ => None
  end.

(** A snapshot whose second state lacks its ["name"], and whose issues
    are those of [malformed_snapshot]. *)
Definition malformed_states_snapshot : SyncCache.snapshot :=
  {| SyncCache.data_project := None;
     SyncCache.data_states :=
       Some [ {| SyncCache.state_id := Some (JStr "s1");
                 SyncCache.state_name := Some "Todo";
                 SyncCache.state_group := Some "unstarted" |};
              {| SyncCache.state_id := Some (JStr "s2");
                 SyncCache.state_name := None;
                 SyncCache.state_group := Some "started" |} ];
     SyncCache.data_issues := SyncCache.data_issues malformed_snapshot |}.

(** The world after [add_issue.py --key CCPRISM-2 --id u-2 --name ...]
    without [--state], and [add_link.py --issue CCPRISM-2 --task a.md]:
    the linked issue is stored with a null state. *)
Definition stateless_link_world : world :=
  run_op (OpLink "CCPRISM-2" "a.md")
    (run_op (OpUpsert "CCPRISM-2"
               {| AddIssue.f_id := JStr "u-2";
                  AddIssue.f_name := JStr "No state yet";
                  AddIssue.f_state := JNull;
                  AddIssue.f_state_id := JNull;
                  AddIssue.f_priority := Some (JStr "none");
                  AddIssue.f_updated_at := None |}
               "2025-01-02T00:00:00Z")
       fresh_world).

(** ** Text of task files *)

Module FrontmatterSpec.
Import Frontmatter.

(** [c in s] *)
Fixpoint occurs (c : ascii) (s : string) : bool :=
  match s with
  | EmptyString => false
  | String c' s' => Ascii.eqb c' c || occurs c s'
  end.

(** The lines joined by newlines. *)
Fixpoint join_lines (lines : list string) : string :=
  match lines with
  | [] => EmptyString
  | [line] => line
  | line :: lines' => line +:+ String newline (join_lines lines')
  end.

Definition render_line (item : string * string) : string :=
  item.1 +:+ ": " +:+ item.2.

(** A task file written from a mapping: the frontmatter block with one
    [key: value] line per item, then the body. *)
Definition render (d : odict string string) (body : string) : string :=
  opening +:+ join_lines (render_line <$> d) +:+ closing +:+ body.

(** Keys and values that survive the writing: no surrounding white
    space and no newline; a key has no colon and does not begin with the
    marker. *)
Definition clean_key (k : string) : Prop :=
  strip k = k /\ occurs colon k = false /\ occurs newline k = false /\
  strip_prefix "---" k = None.

Definition clean_value (v : string) : Prop :=
  strip v = v /\ occurs newline v = false.

Definition clean_item (item : string * string) : Prop :=
  clean_key item.1 /\ clean_value item.2.

(** The mapping a sequence of assignments builds. *)
Definition dict_of (items : list (string * string)) : odict string string :=
  foldl (fun acc item => dset item.1 item.2 acc) [] items.

(** A line that neither holds a newline nor begins with the marker. *)
Definition line_ok (line : string) : Prop :=
  occurs newline line = false /\ strip_prefix "---" line = None.

(** A task file with the two entries the scripts look at. *)
Definition sample_items : odict string string :=
  [("plane_issue", "CCPRISM-1"); ("status", "pending")].

Definition sample_task_text : string :=
  render sample_items "Body of the task".

(** A tasks directory whose single file [a.md] holds that text. *)
Definition sample_read_text (name : string) : option string :=
  if bool_decide (name = "a.md") then Some sample_task_text else None.

(** A block written by hand: white space around the key and the value,
    a value with a colon, a line without colon, a repeated key. *)
Definition untidy_task_text : string :=
  opening +:+
  join_lines [" status :  in progress "; "a note"; "url: http://x";
              "status:done"] +:+
  closing.
End FrontmatterSpec.

(** ** Reading the cache *)

Module ReadSpec.
Import ReadCache.




End ReadSpec.

(** * Properties *)

(** ** Ordered dictionaries *)

Section odict_facts.
Context {K V : Type} `{EqDecision K}.
Implicit Types (k : K) (v : V) (d : list (K * V)).

Lemma dget_dset k k' v d :
  dget k' (dset k v d) = if decide (k = k') then Some v else dget k' d.
Proof.
  induction d as [|[k0 v0] d IH]; simpl.
  - repeat case_decide; congruence.
  - destruct (decide (k0 = k)) as [->|Hne]; simpl.
    + repeat case_decide; congruence.
    + rewrite IH. repeat case_decide; congruence.
Qed.

Lemma dget_dset_eq k v d : dget k (dset k v d) = Some v.
Proof. rewrite dget_dset. by case_decide. Qed.

Lemma dget_dset_ne k k' v d : k ≠ k' -> dget k' (dset k v d) = dget k' d.
Proof. intros. rewrite dget_dset. by case_decide. Qed.


Lemma dset_fresh k v d : dget k d = None -> dset k v d = d ++ [(k, v)].
Proof.
  induction d as [|[k0 v0] d IH]; simpl; [done|].
  case_decide; [done|]. intros. by rewrite IH.
Qed.

Lemma dkeys_dset_present k v d :
  is_Some (dget k d) -> dkeys (dset k v d) = dkeys d.
Proof.
  unfold dkeys. induction d as [|[k0 v0] d IH]; simpl.
  - by intros [? ?].
  - case_decide; [done|]. intros. simpl. f_equal. auto.
Qed.

Lemma dget_None k d : dget k d = None <-> k ∉ dkeys d.
Proof.
  unfold dkeys. induction d as [|[k0 v0] d IH]; simpl.
  - split; [intros _; apply not_elem_of_nil | done].
  - rewrite not_elem_of_cons. case_decide as Heq.
    + split; [done|]. intros [? _]. congruence.
    + rewrite IH. split; [by split|by intros [_ ?]].
Qed.

Lemma dget_Some_elem k v d : dget k d = Some v -> (k, v) ∈ d.
Proof.
  induction d as [|[k0 v0] d IH]; simpl; [done|].
  case_decide.
  - intros [= ->]. subst. apply list_elem_of_here.
  - intros. apply list_elem_of_further. auto.
Qed.

Lemma elem_dget k v d : dict_wf d -> (k, v) ∈ d -> dget k d = Some v.
Proof.
  unfold dict_wf, dkeys. induction d as [|[k0 v0] d IH]; simpl.
  - intros _ Hin. by apply elem_of_nil in Hin.
  - rewrite NoDup_cons. intros [Hk0 Hnd] Hin.
    apply elem_of_cons in Hin as [[= -> ->]|Hin].
    + by case_decide.
    + case_decide as Heq; [|auto]. subst k0. exfalso. apply Hk0.
      apply list_elem_of_fmap. by exists (k, v).
Qed.

Lemma dict_wf_dset k v d : dict_wf d -> dict_wf (dset k v d).
Proof.
  unfold dict_wf. intros Hwf.
  destruct (dget k d) as [v0|] eqn:Hk.
  - by rewrite dkeys_dset_present.
  - rewrite dset_fresh by done. unfold dkeys. rewrite fmap_app. simpl.
    apply NoDup_app. split; [done|]. split; [|apply NoDup_singleton].
    intros x Hx Hx'. apply list_elem_of_singleton in Hx'. subst x.
    by apply dget_None in Hk.
Qed.

Lemma dkeys_dpop_subseteq k d : dkeys (dpop k d) ⊆ dkeys d.
Proof.
  unfold dkeys. induction d as [|[k0 v0] d IH]; simpl; [done|].
  case_decide; simpl.
  - by apply list_subseteq_cons.
  - intros x. rewrite !elem_of_cons. intros [->|Hx]; [by left|].
    right. by apply IH.
Qed.

Lemma dict_wf_dpop k d : dict_wf d -> dict_wf (dpop k d).
Proof.
  unfold dict_wf, dkeys. induction d as [|[k0 v0] d IH]; simpl; [done|].
  rewrite NoDup_cons. intros [Hk0 Hnd]. case_decide; [done|].
  simpl. apply NoDup_cons. split; [|auto].
  intros Hin. apply Hk0. by apply (dkeys_dpop_subseteq k d).
Qed.

Lemma dget_dpop_ne k k' d : k ≠ k' -> dget k' (dpop k d) = dget k' d.
Proof.
  intros Hne. induction d as [|[k0 v0] d IH]; simpl; [done|].
  destruct (decide (k0 = k)) as [->|?]; simpl.
  - by case_decide.
  - by rewrite IH.
Qed.

Lemma dget_dpop_eq k d : dict_wf d -> dget k (dpop k d) = None.
Proof.
  unfold dict_wf, dkeys. induction d as [|[k0 v0] d IH]; simpl; [done|].
  rewrite NoDup_cons. intros [Hk0 Hnd].
  destruct (decide (k0 = k)) as [->|?]; simpl.
  - by apply dget_None.
  - case_decide; [done|]. auto.
Qed.

(** Two dictionaries with the same keys in the same order and the same
    value under each key are the same dictionary. *)
Lemma dict_ext d1 d2 :
  dict_wf d1 -> dkeys d1 = dkeys d2 ->
  (forall k, dget k d1 = dget k d2) -> d1 = d2.
Proof.
  unfold dict_wf, dkeys. revert d2.
  induction d1 as [|[k1 v1] d1 IH]; intros [|[k2 v2] d2]; simpl; try done.
  rewrite NoDup_cons. intros [Hk1 Hnd] [= <- Hkeys] Hget.
  pose proof (Hget k1) as H1. simpl in H1.
  rewrite !decide_True in H1 by done. injection H1 as <-.
  f_equal. apply IH; [done..|].
  intros k. specialize (Hget k). simpl in Hget.
  case_decide as Heq; [|done]. subst k.
  assert (dget k1 d1 = None) as -> by by apply dget_None.
  symmetry. apply dget_None. unfold dkeys, fmap. by rewrite <- Hkeys.
Qed.

Lemma dmem_true k d : dmem k d = true <-> is_Some (dget k d).
Proof. unfold dmem. destruct (dget k d); split; (done || by intros [? ?]). Qed.

Lemma dmem_false k d : dmem k d = false <-> dget k d = None.
Proof. unfold dmem. by destruct (dget k d). Qed.
End odict_facts.

(** ** The link manager *)

Section link_manager.
Import AddLink.


Lemma task_owner_None issue_key task_file items :
  task_owner issue_key task_file items = None <->
  forall k, (k, task_file) ∈ items -> k = issue_key.
Proof.
  induction items as [|[k0 v0] items IH]; simpl.
  - split; [|done]. intros _ k Hk. by apply elem_of_nil in Hk.
  - destruct (bool_decide (v0 = task_file) && bool_decide (k0 ≠ issue_key))
      eqn:Hc.
    + apply andb_true_iff in Hc as [Hv Hk].
      apply bool_decide_eq_true in Hv, Hk. subst v0.
      split; [done|]. intros Hall. destruct Hk.
      apply Hall, list_elem_of_here.
    + rewrite IH. apply andb_false_iff in Hc.
      split.
      * intros Hall k Hk. apply elem_of_cons in Hk as [[= -> ->]|Hk].
        -- destruct Hc as [Hc|Hc]; apply bool_decide_eq_false in Hc;
             [done|]. by apply dec_stable.
        -- auto.
      * intros Hall k Hk. apply Hall. by apply list_elem_of_further.
Qed.



Lemma cache_eta c :
  {| project := project c; states := states c; issues := issues c;
     linked := linked c; lastSync := lastSync c |} = c.
Proof. by destruct c. Qed.

End link_manager.

Section link_invariant.
Import AddLink.

Lemma links_inv_injective c : links_inv c -> links_injective c.
Proof.
  intros [Hwf Hinj]. split.
  - intros k t1 t2 H1 H2. apply (elem_dget _ _ _ Hwf) in H1, H2. congruence.
  - intros k1 k2 t H1 H2. apply (elem_dget _ _ _ Hwf) in H1, H2. eauto.
Qed.

Lemma links_inv_empty : links_inv empty_cache.
Proof. split; [apply NoDup_nil_2|done]. Qed.

Lemma links_inv_same_linked c c' :
  linked c' = linked c -> links_inv c -> links_inv c'.
Proof. unfold links_inv. by intros ->. Qed.

Lemma links_inv_dset c c' issue_key task_file :
  linked c' = dset issue_key task_file (linked c) ->
  task_owner issue_key task_file (linked c) = None ->
  links_inv c -> links_inv c'.
Proof.
  unfold links_inv. intros -> Hfree [Hwf Hinj].
  split; [by apply dict_wf_dset|].
  rewrite task_owner_None in Hfree.
  intros k1 k2 t. rewrite !dget_dset.
  destruct (decide (issue_key = k1)) as [<-|?],
           (decide (issue_key = k2)) as [<-|?]; try done.
  - intros [= <-] H2. symmetry. by apply Hfree, dget_Some_elem.
  - intros H1 [= <-]. by apply Hfree, dget_Some_elem.
  - apply Hinj.
Qed.

Lemma links_inv_dpop c c' issue_key :
  linked c' = dpop issue_key (linked c) -> links_inv c -> links_inv c'.
Proof.
  unfold links_inv. intros -> [Hwf Hinj].
  split; [by apply dict_wf_dpop|].
  intros k1 k2 t H1 H2.
  destruct (decide (issue_key = k1)) as [<-|?];
    [by rewrite dget_dpop_eq in H1|].
  destruct (decide (issue_key = k2)) as [<-|?];
    [by rewrite dget_dpop_eq in H2|].
  rewrite dget_dpop_ne in H1, H2 by done. eauto.
Qed.

Lemma sync_doc_linked data now c c' r :
  SyncCache.sync_doc data now c = Return (c', r) -> linked c' = linked c.
Proof.
  unfold SyncCache.sync_doc.
  destruct (match SyncCache.data_states data with
            | Some l => _ | None => _ end) as [[sbi cs]|]; simpl; [|done].
  destruct (match SyncCache.data_issues data with
            | Some l => _ | None => _ end) as [acc|]; simpl; [|done].
  by intros [= <- _].
Qed.

Lemma run_op_inv o w : world_inv w -> world_inv (run_op o w).
Proof.
  intros (c & Hload & Hinv).
  destruct o as [data now|now|key fields now|key fields now
                 |issue_key task_file|issue_key]; simpl.
  - unfold SyncCache.sync_cache, bind, lift. rewrite Hload.
    destruct (SyncCache.sync_doc data now c) as [[c' r]|e] eqn:Hs; simpl.
    + exists c'. split; [done|].
      eapply links_inv_same_linked; [|done]. by eapply sync_doc_linked.
    + by exists c.
  - unfold SyncCache.touch_cache, bind. rewrite Hload. simpl.
    eexists. split; [done|]. by eapply links_inv_same_linked.
  - unfold AddIssue.main.
    destruct (_ || _); simpl; [by exists c|].
    unfold AddIssue.add_issue, bind. rewrite Hload. simpl.
    eexists. split; [done|]. by eapply links_inv_same_linked.
  - unfold AddIssue.add_issue, bind. rewrite Hload. simpl.
    eexists. split; [done|]. by eapply links_inv_same_linked.
  - unfold add_link, bind. rewrite Hload.
    destruct (negb _); simpl; [by exists c|].
    destruct (_ && _); simpl; [by exists c|].
    destruct (task_owner _ _ _) eqn:Hfree; simpl; [by exists c|].
    eexists. split; [done|]. by eapply links_inv_dset.
  - unfold remove_link, bind. rewrite Hload.
    destruct (dget _ _); simpl; [|by exists c].
    eexists. split; [done|]. by eapply links_inv_dpop.
Qed.

Lemma reachable_inv w : reachable w -> world_inv w.
Proof.
  induction 1 as [w Hw|w o _ IH].
  - exists empty_cache. split; [done|apply links_inv_empty].
  - by apply run_op_inv.
Qed.

(** C1 (link bijection invariant): in every world reached from the empty
    skeleton by sync, touch, issue upsert, link and unlink calls, the
    cache file holds a document (the next call loads it) whose [linked]
    mapping is injective in both directions: no issue key is paired with
    two task files and no task file with two issue keys. *)
Theorem link_bijection_invariant w :
  reachable w -> exists c, loads w c /\ links_injective c.
Proof.
  intros Hreach.
  destruct (reachable_inv w Hreach) as (c & Hload & Hinv).
  exists c. split; [done|]. by apply links_inv_injective.
Qed.

End link_invariant.

Lemma link_bijection_invariant_witness :
  exists c, loads one_link_world c /\ links_injective c.
Proof.
  apply link_bijection_invariant.
  apply reach_step, reach_step, reach_empty. reflexivity.
Defined.

Section link_results.
Import AddLink.

Lemma add_link_run w c issue_key task_file :
  loads w c ->
  add_link issue_key task_file w =
    if negb (dmem issue_key (issues c)) then
      (w, Return (LinkFailed (not_found_error issue_key)))
    else if opt_truthy (dget issue_key (linked c)) &&
            bool_decide (dget issue_key (linked c) ≠ Some task_file) then
      (w, Return (LinkFailed
                    (issue_conflict_error issue_key
                       (default "" (dget issue_key (linked c))))))
    else match task_owner issue_key task_file (linked c) with
         | Some k =>
             (w, Return (LinkFailed (task_conflict_error task_file k)))
         | None =>
             ({| file := Stored
                   {| project := project c; states := states c;
                      issues := issues c;
                      linked := dset issue_key task_file (linked c);
                      lastSync := lastSync c |};
                 saves := S (saves w) |},
              Return (Linked (issue_key +:+ " ↔ " +:+ task_file)
                        (match dget issue_key (issues c) with
                         | Some i => i_name i
                         | None => JStr ""
                         end)))
         end.
Proof.
  intros Hload. unfold add_link, bind. rewrite Hload.
  destruct (negb _); [done|]. destruct (_ && _); [done|].
  by destruct (task_owner _ _ _).
Qed.


End link_results.



Section atomicity.
Import AddLink.

(** C10 (error atomicity): from any world, when [add_link] returns a
    failure result (not found or conflict), when [remove_link] returns
    its not-linked failure, or when the entry point of [add_issue.py]
    meets a missing or empty id or name (which it rejects), the world
    is the one the call started in: [save_cache] was not called and the
    cache file is unchanged. *)
Theorem failure_leaves_world_unchanged w :
  (forall issue_key task_file error,
     (add_link issue_key task_file w).2 = Return (LinkFailed error) ->
     (add_link issue_key task_file w).1 = w) /\
  (forall issue_key error,
     (remove_link issue_key w).2 = Return (UnlinkFailed error) ->
     (remove_link issue_key w).1 = w) /\
  (forall key issue_data now,
     truthy (AddIssue.f_id issue_data) = false \/
     truthy (AddIssue.f_name issue_data) = false ->
     AddIssue.main key issue_data now w =
       (w, Return (AddIssue.Rejected
                     "Missing required fields: id and name"))) /\
  (forall key issue_data now error,
     (AddIssue.main key issue_data now w).2 =
       Return (AddIssue.Rejected error) ->
     (AddIssue.main key issue_data now w).1 = w).
Proof.
  split_and!.
  - intros issue_key task_file error.
    unfold add_link, bind, load_cache.
    destruct (file w) as [| |c]; simpl; try done.
    all: destruct (negb _); simpl; [done|].
    all: destruct (_ && _); simpl; [done|].
    all: by destruct (task_owner _ _ _).
  - intros issue_key error.
    unfold remove_link, bind, load_cache.
    destruct (file w) as [| |c]; simpl; try done.
    by destruct (dget _ _).
  - intros key issue_data now Hfalsy. unfold AddIssue.main.
    by destruct Hfalsy as [-> | ->]; rewrite ?orb_true_r.
  - intros key issue_data now error. unfold AddIssue.main.
    destruct (_ || _); [done|].
    unfold AddIssue.add_issue, bind, load_cache.
    by destruct (file w).
Qed.

End atomicity.

Lemma failure_leaves_world_unchanged_witness :
  (AddLink.add_link "CCPRISM-9" "a.md" one_link_world).1 = one_link_world /\
  (AddLink.add_link "CCPRISM-1" "b.md" one_link_world).1 = one_link_world /\
  (AddLink.remove_link "CCPRISM-1" one_issue_world).1 = one_issue_world /\
  (AddIssue.main "CCPRISM-2"
     {| AddIssue.f_id := JStr ""; AddIssue.f_name := JStr "Second";
        AddIssue.f_state := JNull; AddIssue.f_state_id := JNull;
        AddIssue.f_priority := None; AddIssue.f_updated_at := None |}
     "2025-01-03T00:00:00Z" one_link_world).1 = one_link_world.
Proof.
  destruct (failure_leaves_world_unchanged one_link_world)
    as (Hlink & _ & Hreject & _).
  destruct (failure_leaves_world_unchanged one_issue_world)
    as (_ & Hunlink & _ & _).
  split_and!.
  - eapply Hlink. reflexivity.
  - eapply Hlink. reflexivity.
  - eapply Hunlink. reflexivity.
  - rewrite Hreject; [reflexivity|]. left. reflexivity.
Defined.

(** ** Loops of dictionary writes *)

Section writes_facts.
Context {K V : Type} `{EqDecision K}.
Implicit Types (k : K) (v : V) (d : list (K * V))
  (ws : list (bool * K * V)).

Lemma apply_write_wf d w : dict_wf d -> dict_wf (apply_write d w).
Proof.
  destruct w as [[always k] v]. simpl.
  destruct (_ || _); [apply dict_wf_dset|done].
Qed.

Lemma run_writes_wf ws d : dict_wf d -> dict_wf (run_writes ws d).
Proof.
  unfold run_writes. revert d.
  induction ws as [|w ws IH]; intros d Hwf; simpl; [done|].
  by apply IH, apply_write_wf.
Qed.

Lemma apply_write_present d w k :
  is_Some (dget k d) -> is_Some (dget k (apply_write d w)).
Proof.
  destruct w as [[always k'] v']. simpl.
  destruct (_ || _); [|done]. rewrite dget_dset.
  by case_decide.
Qed.

Lemma run_writes_present ws d k :
  is_Some (dget k d) -> is_Some (dget k (run_writes ws d)).
Proof.
  unfold run_writes. revert d.
  induction ws as [|w ws IH]; intros d Hk; simpl; [done|].
  by apply IH, apply_write_present.
Qed.

Lemma apply_write_key_present d always k v :
  is_Some (dget k (apply_write d (always, k, v))).
Proof.
  simpl. destruct (_ || _) eqn:Hc.
  - rewrite dget_dset_eq. by eexists.
  - apply orb_false_iff in Hc as [_ Hc].
    apply negb_false_iff in Hc. by apply dmem_true.
Qed.

(** After the loop every key it mentions is present. *)
Lemma run_writes_keys_present ws d always k v :
  (always, k, v) ∈ ws -> is_Some (dget k (run_writes ws d)).
Proof.
  unfold run_writes. revert d.
  induction ws as [|w ws IH]; intros d Hin; simpl.
  - by apply elem_of_nil in Hin.
  - apply elem_of_cons in Hin as [<-|Hin]; [|by apply IH].
    apply (run_writes_present ws), apply_write_key_present.
Qed.

Lemma run_writes_cons w ws d :
  run_writes (w :: ws) d = run_writes ws (apply_write d w).
Proof. done. Qed.

Lemma run_writes_untouched ws d k :
  last_write ws k = None -> is_Some (dget k d) ->
  dget k (run_writes ws d) = dget k d.
Proof.
  revert d.
  induction ws as [|[[always k'] v'] ws IH]; intros d Hlast Hk; [done|].
  rewrite run_writes_cons.
  simpl in Hlast. destruct (last_write ws k); [done|].
  rewrite IH; [|done|by apply apply_write_present].
  simpl. destruct (decide (k' = k)) as [->|Hne].
  - rewrite bool_decide_eq_true_2 in Hlast by done.
    destruct always; [done|]. simpl.
    apply dmem_true in Hk. by rewrite Hk.
  - destruct (_ || _); [|done]. by rewrite dget_dset_ne.
Qed.

(** After the loop a key written unconditionally holds the last value
    written. *)
Lemma run_writes_last ws d k v :
  last_write ws k = Some v -> dget k (run_writes ws d) = Some v.
Proof.
  revert d.
  induction ws as [|[[always k'] v'] ws IH]; intros d Hlast; [done|].
  simpl in Hlast. rewrite run_writes_cons.
  destruct (last_write ws k) as [v0|] eqn:Hrest.
  - injection Hlast as ->. by apply IH.
  - destruct always; [|done]. simpl in Hlast.
    case_bool_decide; [|done]. injection Hlast as ->. subst k'.
    rewrite (run_writes_untouched ws _ k Hrest).
    + simpl. apply dget_dset_eq.
    + apply apply_write_key_present.
Qed.

(** A loop whose keys are all present only overwrites values. *)
Lemma run_writes_all_present ws d :
  (forall always k v, (always, k, v) ∈ ws -> is_Some (dget k d)) ->
  dkeys (run_writes ws d) = dkeys d /\
  forall k, dget k (run_writes ws d) =
            match last_write ws k with
            | Some v => Some v
            | None => dget k d
            end.
Proof.
  revert d.
  induction ws as [|[[always k'] v'] ws IH]; intros d Hall; [done|].
  rewrite run_writes_cons.
  assert (is_Some (dget k' d)) as Hk'.
  { eapply Hall, list_elem_of_here. }
  destruct (IH (apply_write d (always, k', v'))) as [Hkeys Hget].
  { intros a k v Hin. apply apply_write_present.
    eapply Hall, list_elem_of_further, Hin. }
  split.
  - rewrite Hkeys. simpl.
    destruct (_ || _); [|done]. by apply dkeys_dset_present.
  - intros k. rewrite Hget. simpl.
    destruct (last_write ws k); [done|].
    apply dmem_true in Hk'. rewrite Hk'. simpl.
    destruct always; simpl; [|done].
    rewrite dget_dset. by repeat case_decide.
Qed.

Lemma run_writes_idempotent_wf ws d :
  dict_wf d -> run_writes ws (run_writes ws d) = run_writes ws d.
Proof.
  intros Hwf.
  destruct (run_writes_all_present ws (run_writes ws d)) as [Hkeys Hget].
  { intros always k v Hin. by eapply run_writes_keys_present. }
  symmetry. apply dict_ext; [by apply run_writes_wf|done|].
  intros k. rewrite Hget.
  destruct (last_write ws k) eqn:Hlast; [|done].
  by apply run_writes_last.
Qed.

(** The first entry of a dictionary only sees the writes to its key; the
    entries behind it only see the other writes. *)
Lemma run_writes_head ws k0 v0 d :
  run_writes ws ((k0, v0) :: d) =
    (k0, default v0 (last_write ws k0)) :: run_writes (other_writes k0 ws) d.
Proof.
  revert v0 d. induction ws as [|[[always k] v] ws IH]; intros v0 d; [done|].
  rewrite run_writes_cons. cbn [last_write other_writes].
  destruct (decide (k = k0)) as [->|Hne].
  - assert (apply_write ((k0, v0) :: d) (always, k0, v)
            = (k0, if always then v else v0) :: d) as ->.
    { unfold apply_write, dmem. simpl. rewrite !decide_True by done.
      simpl. rewrite orb_false_r. by destruct always. }
    rewrite IH. rewrite bool_decide_eq_true_2 by done.
    destruct (last_write ws k0); [done|]. by destruct always.
  - assert (apply_write ((k0, v0) :: d) (always, k, v)
            = (k0, v0) :: apply_write d (always, k, v)) as ->.
    { unfold apply_write, dmem. simpl. rewrite !decide_False by done.
      by destruct (_ || _). }
    rewrite IH, run_writes_cons. rewrite bool_decide_eq_false_2 by done.
    rewrite andb_false_r. by destruct (last_write ws k0).
Qed.

Lemma run_writes_app ws1 ws2 d :
  run_writes (ws1 ++ ws2) d = run_writes ws2 (run_writes ws1 d).
Proof. apply foldl_app. Qed.

(** A loop that does not mention [k] leaves [k] alone. *)
Lemma run_writes_other_keys ws d k :
  (forall always k' v, (always, k', v) ∈ ws -> k' ≠ k) ->
  dget k (run_writes ws d) = dget k d.
Proof.
  revert d. induction ws as [|[[always k'] v'] ws IH]; intros d Hother;
    [done|].
  rewrite run_writes_cons, IH.
  - simpl. destruct (_ || _); [|done]. rewrite dget_dset_ne; [done|].
    eapply Hother, list_elem_of_here.
  - intros a k0 v0 Hin. eapply Hother, list_elem_of_further, Hin.
Qed.

Lemma last_write_app ws1 ws2 k :
  last_write (ws1 ++ ws2) k =
    match last_write ws2 k with
    | Some v => Some v
    | None => last_write ws1 k
    end.
Proof.
  induction ws1 as [|[[always k'] v'] ws1 IH]; simpl.
  - by destruct (last_write ws2 k).
  - rewrite IH. by destruct (last_write ws2 k).
Qed.

Lemma last_write_None ws k :
  (forall v, (true, k, v) ∉ ws) -> last_write ws k = None.
Proof.
  induction ws as [|[[always k'] v'] ws IH]; intros Hnone; [done|].
  simpl. rewrite IH.
  - destruct always; [|done]. simpl. case_bool_decide; [|done]. subst k'.
    destruct (Hnone v'). apply list_elem_of_here.
  - intros v Hin. apply (Hnone v). by apply list_elem_of_further.
Qed.

(** Running the same loop again changes nothing. *)
Lemma run_writes_idempotent ws d :
  run_writes ws (run_writes ws d) = run_writes ws d.
Proof.
  revert ws. induction d as [|[k0 v0] d IH]; intros ws.
  - apply run_writes_idempotent_wf, NoDup_nil_2.
  - rewrite !run_writes_head, IH. f_equal.
    by destruct (last_write ws k0).
Qed.
End writes_facts.

(** ** The reconciler *)

Section sync_loops.
Import SyncCache SyncSpec.

Lemma ofold_cons {A S} (body : S -> A -> outcome S) s a l :
  ofold body s (a :: l) = obind (body s a) (fun s' => ofold body s' l).
Proof. done. Qed.

Lemma state_step_valid sbi cs st :
  state_valid st ->
  state_step (sbi, cs) st =
    Return (dset (default JNull (state_id st)) st sbi,
            apply_write cs (state_write st)).
Proof.
  intros [[sid Hid] [name Hname]].
  unfold state_step, state_write, is_special, normalized_name, status_key.
  rewrite Hid, Hname. simpl.
  destruct (bool_decide _); simpl; [done|].
  by destruct (dmem _ cs).
Qed.

Lemma state_step_Return acc st acc' :
  state_step acc st = Return acc' -> state_valid st.
Proof.
  destruct acc as [sbi cs]. unfold state_step, state_valid.
  destruct (state_id st); [|done]. destruct (state_name st); [|done].
  intros _. split; by eexists.
Qed.

Lemma states_loop_valid l sbi cs :
  Forall state_valid l ->
  ofold state_step (sbi, cs) l =
    Return (index_states sbi l, run_writes (state_write <$> l) cs).
Proof.
  intros Hall. revert sbi cs.
  induction Hall as [|st l Hst _ IH]; intros sbi cs; [done|].
  rewrite ofold_cons, (state_step_valid _ _ _ Hst). apply IH.
Qed.

Lemma states_loop_Return l acc acc' :
  ofold state_step acc l = Return acc' -> Forall state_valid l.
Proof.
  revert acc. induction l as [|st l IH]; intros acc; simpl; [done|].
  destruct (state_step acc st) as [acc1|] eqn:Hst; simpl; [|done].
  intros Hrest. constructor; [by eapply state_step_Return|by eapply IH].
Qed.

Lemma issue_step_valid ident sbi acc e :
  issue_valid e ->
  issue_step ident sbi acc e = Return (issue_effect ident sbi acc e).
Proof.
  unfold issue_valid, first_missing, issue_step, issue_effect, entry_key,
    issue_record.
  destruct (issue_sequence_id e) as [seq|]; [|done].
  destruct (issue_id e) as [iid|]; [|done].
  destruct (issue_name e) as [iname|]; [|done].
  intros _. simpl.
  destruct (dget _ (acc_issues acc)) as [old|]; simpl.
  - destruct (bool_decide _); by rewrite ?app_nil_r.
  - by rewrite app_nil_r.
Qed.

Lemma issue_step_missing ident sbi acc e field :
  first_missing e = Some field ->
  issue_step ident sbi acc e = Raise (KeyError field).
Proof.
  unfold first_missing, issue_step.
  destruct (issue_sequence_id e); [|by intros [= <-]].
  destruct (issue_id e); [|by intros [= <-]].
  destruct (issue_name e); [done|by intros [= <-]].
Qed.

Lemma issue_step_Return ident sbi acc e acc' :
  issue_step ident sbi acc e = Return acc' -> issue_valid e.
Proof.
  unfold issue_valid. destruct (first_missing e) as [field|] eqn:Hm; [|done].
  by rewrite (issue_step_missing _ _ _ _ _ Hm).
Qed.

Lemma issues_loop_valid ident sbi l acc :
  Forall issue_valid l ->
  ofold (issue_step ident sbi) acc l =
    Return (foldl (issue_effect ident sbi) acc l).
Proof.
  intros Hall. revert acc.
  induction Hall as [|e l He _ IH]; intros acc; [done|].
  rewrite ofold_cons, (issue_step_valid _ _ _ _ He). apply IH.
Qed.

Lemma issues_loop_Return ident sbi l acc acc' :
  ofold (issue_step ident sbi) acc l = Return acc' -> Forall issue_valid l.
Proof.
  revert acc. induction l as [|e l IH]; intros acc; simpl; [done|].
  destruct (issue_step ident sbi acc e) as [acc1|] eqn:He; simpl; [|done].
  intros Hrest. constructor; [by eapply issue_step_Return|by eapply IH].
Qed.

(** The loop raises at the first entry that lacks a key. *)
Lemma issues_loop_raise ident sbi pre bad post acc field :
  Forall issue_valid pre -> first_missing bad = Some field ->
  ofold (issue_step ident sbi) acc (pre ++ bad :: post) =
    Raise (KeyError field).
Proof.
  intros Hpre Hbad. revert acc.
  induction Hpre as [|e l He _ IH]; intros acc.
  - simpl app. by rewrite ofold_cons, (issue_step_missing _ _ _ _ _ Hbad).
  - simpl app. rewrite ofold_cons, (issue_step_valid _ _ _ _ He). apply IH.
Qed.

Lemma issues_loop_writes ident sbi l acc :
  acc_issues (foldl (issue_effect ident sbi) acc l) =
  run_writes (issue_write ident sbi <$> l) (acc_issues acc).
Proof.
  revert acc. induction l as [|e l IH]; intros acc; [done|].
  simpl foldl. rewrite IH. done.
Qed.

(** A sync of a valid snapshot returns and saves [synced]. *)
Lemma sync_doc_valid data now c :
  snapshot_valid data ->
  sync_doc data now c =
    Return (synced data now c,
            {| issues_count := length (issues (synced data now c));
               states_count := length (states (synced data now c));
               new := acc_new (sync_acc data c);
               updated := acc_updated (sync_acc data c) |}).
Proof.
  intros [Hstates Hissues].
  unfold sync_doc, synced, sync_acc, sync_identifier, sync_index,
    sync_project, snapshot_states, snapshot_issues in *.
  destruct (data_states data) as [ls|]; simpl in *.
  - rewrite (states_loop_valid _ _ _ Hstates). simpl.
    destruct (data_issues data) as [li|]; simpl in *; [|done].
    rewrite (issues_loop_valid _ _ _ _ Hissues). simpl.
    by rewrite issues_loop_writes.
  - destruct (data_issues data) as [li|]; simpl in *; [|done].
    rewrite (issues_loop_valid _ _ _ _ Hissues). simpl.
    by rewrite issues_loop_writes.
Qed.

Lemma sync_doc_Return data now c c' r :
  sync_doc data now c = Return (c', r) -> snapshot_valid data.
Proof.
  unfold sync_doc, snapshot_valid, snapshot_states, snapshot_issues.
  destruct (data_states data) as [ls|]; simpl.
  - destruct (ofold state_step _ ls) as [[sbi cs]|] eqn:Hs; simpl; [|done].
    apply states_loop_Return in Hs.
    destruct (data_issues data) as [li|]; simpl; [|by split].
    destruct (ofold _ _ li) as [acc|] eqn:Hi; simpl; [|done].
    apply issues_loop_Return in Hi. by split.
  - destruct (data_issues data) as [li|]; simpl; [|by split].
    destruct (ofold _ _ li) as [acc|] eqn:Hi; simpl; [|done].
    apply issues_loop_Return in Hi. by split.
Qed.

End sync_loops.

Section sync_idempotence.
Import SyncCache SyncSpec.

Lemma sync_cache_run data now w c :
  loads w c ->
  sync_cache data now w =
    match sync_doc data now c with
    | Return (c', r) =>
        ({| file := Stored c'; saves := S (saves w) |}, Return r)
    | Raise e => (w, Raise e)
    end.
Proof.
  intros Hload. unfold sync_cache, bind, lift. rewrite Hload.
  by destruct (sync_doc data now c) as [[c' r]|e].
Qed.

Lemma sync_project_again data now c :
  sync_project data (synced data now c) = sync_project data c.
Proof.
  unfold sync_project. destruct (data_project data) as [p|] eqn:Hp.
  - unfold update_project. simpl. unfold sync_project. rewrite Hp.
    destruct (proj_workspace p) eqn:Hw; [done|].
    unfold update_project. by rewrite Hw.
  - simpl. unfold sync_project. by rewrite Hp.
Qed.

Lemma synced_again data now1 now2 c :
  synced data now2 (synced data now1 c) =
    {| project := project (synced data now1 c);
       states := states (synced data now1 c);
       issues := issues (synced data now1 c);
       linked := linked (synced data now1 c);
       lastSync := JStr now2 |}.
Proof.
  unfold synced at 1.
  unfold sync_identifier. rewrite sync_project_again.
  f_equal; simpl; by apply run_writes_idempotent.
Qed.

Lemma sync_cache_Return data now w w1 r :
  sync_cache data now w = (w1, Return r) -> exists c, loads w c.
Proof.
  unfold sync_cache, bind, loads, load_cache.
  destruct (file w); [by eexists|done|by eexists].
Qed.

(** C3 (sync idempotence): from any cache document, if [sync(S)]
    returns, then [sync(S)] run again on the saved document returns too
    and saves a document with the same [project], [states], [issues] and
    [linked]; only [lastSync], the time of the run, may differ. *)
Theorem sync_idempotent data now1 now2 w w1 r1 :
  sync_cache data now1 w = (w1, Return r1) ->
  exists c1 w2 r2 c2,
    loads w1 c1 /\
    sync_cache data now2 w1 = (w2, Return r2) /\
    loads w2 c2 /\
    project c2 = project c1 /\ states c2 = states c1 /\
    issues c2 = issues c1 /\ linked c2 = linked c1 /\
    lastSync c1 = JStr now1 /\ lastSync c2 = JStr now2.
Proof.
  intros Hsync. destruct (sync_cache_Return _ _ _ _ _ Hsync) as [c Hload].
  rewrite (sync_cache_run _ _ _ _ Hload) in Hsync.
  destruct (sync_doc data now1 c) as [[c1 r]|e] eqn:Hrun; [|done].
  pose proof (sync_doc_Return _ _ _ _ _ Hrun) as Hvalid.
  rewrite (sync_doc_valid _ _ _ Hvalid) in Hrun.
  injection Hrun as <- <-. injection Hsync as <- <-.
  eexists (synced data now1 c), _, _, _.
  split; [done|]. split.
  { erewrite sync_cache_run by done.
    rewrite (sync_doc_valid _ _ _ Hvalid). done. }
  split; [done|]. by rewrite synced_again.
Qed.

End sync_idempotence.

Lemma sync_idempotent_witness :
  exists c1 w2 r2 c2,
    loads (SyncCache.sync_cache sample_snapshot "T1" fresh_world).1 c1 /\
    SyncCache.sync_cache sample_snapshot "T2"
      (SyncCache.sync_cache sample_snapshot "T1" fresh_world).1 =
      (w2, Return r2) /\
    loads w2 c2 /\
    project c2 = project c1 /\ states c2 = states c1 /\
    issues c2 = issues c1 /\ linked c2 = linked c1 /\
    lastSync c1 = JStr "T1" /\ lastSync c2 = JStr "T2".
Proof.
  eapply (sync_idempotent sample_snapshot "T1" "T2" fresh_world).
  reflexivity.
Defined.

Section state_vocabulary.
Import SyncCache SyncSpec.

Lemma state_write_slot st :
  state_write st =
    (is_special st,
     if is_special st then normalized_name st else status_key st,
     default JNull (state_id st)).
Proof. done. Qed.

Lemma no_special_write l k :
  (forall st, st ∈ l -> is_special st = true -> normalized_name st ≠ k) ->
  last_write (state_write <$> l) k = None.
Proof.
  intros Hnone. apply last_write_None. intros v Hin.
  apply list_elem_of_fmap in Hin as (st & Hw & Hst).
  unfold state_write in Hw.
  destruct (is_special st) eqn:Hsp; [|done].
  injection Hw as Hk _. by destruct (Hnone st Hst Hsp).
Qed.

Lemma sync_states data now w c w1 r l :
  loads w c -> data_states data = Some l ->
  sync_cache data now w = (w1, Return r) ->
  exists c1, loads w1 c1 /\
             states c1 = run_writes (state_write <$> l) (states c).
Proof.
  intros Hload Hl Hsync.
  rewrite (sync_cache_run _ _ _ _ Hload) in Hsync.
  destruct (sync_doc data now c) as [[c1 r1]|] eqn:Hdoc; [|done].
  injection Hsync as <- <-.
  pose proof (sync_doc_Return _ _ _ _ _ Hdoc) as Hvalid.
  rewrite (sync_doc_valid _ _ _ Hvalid) in Hdoc. injection Hdoc as <- _.
  eexists. split; [done|]. simpl. unfold snapshot_states. by rewrite Hl.
Qed.

(** C6 (state vocabulary normalisation).  In the loop over the states of
    a snapshot, a state whose normalised name (lower case, spaces
    replaced by underscores) is [in_review] or [ready_to_merge] is
    recorded under that name whatever the slot holds; any other state is
    recorded under the canonical status of its group if that slot is
    empty and leaves [states] as it is if the slot is populated.  Over a
    whole sync: a special name ends up with the id of the last state so
    named; a canonical slot that was populated before the sync keeps its
    value, and one that was empty gets the id of the first state of the
    list that falls into it (first seen wins), as long as no special name
    is that slot.  The canonical statuses are backlog, pending,
    in_progress, completed and cancelled.  Syncing the three states
    Todo/unstarted, In Progress/started, In Review/started into an empty
    cache gives pending = s1, in_progress = s2, in_review = s3. *)
Theorem state_vocabulary_normalization sbi cs sid name group :
  let st := {| state_id := Some sid; state_name := Some name;
               state_group := group |} in
  let name_lower := replace_space (lower name) in
  let status_key := map_state_group_to_status (default "" group) in
  (name_lower = "in_review" \/ name_lower = "ready_to_merge" ->
   state_step (sbi, cs) st = Return (dset sid st sbi, dset name_lower sid cs)
   /\ dget name_lower (dset name_lower sid cs) = Some sid) /\
  (name_lower ≠ "in_review" -> name_lower ≠ "ready_to_merge" ->
   dget status_key cs = None ->
   state_step (sbi, cs) st = Return (dset sid st sbi, dset status_key sid cs)
   /\ dget status_key (dset status_key sid cs) = Some sid) /\
  (name_lower ≠ "in_review" -> name_lower ≠ "ready_to_merge" ->
   is_Some (dget status_key cs) ->
   state_step (sbi, cs) st = Return (dset sid st sbi, cs)) /\
  (forall data now w c w1 r pre post,
     loads w c -> data_states data = Some (pre ++ st :: post) ->
     sync_cache data now w = (w1, Return r) ->
     exists c1,
       loads w1 c1 /\
       (is_special st = true ->
        (forall st', st' ∈ post -> is_special st' = true ->
                     normalized_name st' ≠ name_lower) ->
        dget name_lower (states c1) = Some sid) /\
       (is_special st = false ->
        (forall st', st' ∈ pre ++ post -> is_special st' = true ->
                     normalized_name st' ≠ status_key) ->
        (forall v, dget status_key (states c) = Some v ->
                   dget status_key (states c1) = Some v) /\
        (dget status_key (states c) = None ->
         (forall st', st' ∈ pre -> is_special st' = false ->
                      SyncSpec.status_key st' ≠ status_key) ->
         dget status_key (states c1) = Some sid))) /\
  (map_state_group_to_status "backlog" = "backlog" /\
   map_state_group_to_status "unstarted" = "pending" /\
   map_state_group_to_status "started" = "in_progress" /\
   map_state_group_to_status "completed" = "completed" /\
   map_state_group_to_status "cancelled" = "cancelled") /\
  (forall now,
     exists w r c,
       sync_cache {| data_project := None;
                     data_states := Some sample_states;
                     data_issues := None |} now fresh_world
         = (w, Return r) /\
       loads w c /\
       states c = [("pending", JStr "s1"); ("in_progress", JStr "s2");
                   ("in_review", JStr "s3")]).
Proof.
  intros st name_lower status_key. split_and!.
  - unfold state_step. simpl. fold name_lower. fold status_key.
    intros Hspecial. rewrite bool_decide_eq_true_2.
    + split; [done|apply dget_dset_eq].
    + rewrite !elem_of_cons. tauto.
  - unfold state_step. simpl. fold name_lower. fold status_key.
    intros Hne1 Hne2 Hfree. rewrite bool_decide_eq_false_2.
    + apply dmem_false in Hfree. rewrite Hfree. simpl.
      split; [done|apply dget_dset_eq].
    + rewrite !not_elem_of_cons. split_and!; [done..|apply not_elem_of_nil].
  - unfold state_step. simpl. fold name_lower. fold status_key.
    intros Hne1 Hne2 Hpop. rewrite bool_decide_eq_false_2.
    + apply dmem_true in Hpop. by rewrite Hpop.
    + rewrite !not_elem_of_cons. split_and!; [done..|apply not_elem_of_nil].
  - intros data now w c w1 r pre post Hload Hl Hsync.
    destruct (sync_states _ _ _ _ _ _ _ Hload Hl Hsync)
      as (c1 & Hload1 & Hstates).
    exists c1. split; [done|].
    rewrite Hstates, fmap_app, fmap_cons, state_write_slot.
    change (normalized_name st) with name_lower.
    change (SyncSpec.status_key st) with status_key.
    change (default JNull (state_id st)) with sid.
    split.
    + intros -> Hlast. apply run_writes_last.
      rewrite last_write_app. cbn [last_write].
      rewrite (no_special_write post name_lower Hlast). simpl.
      by rewrite bool_decide_eq_true_2.
    + intros -> Hnone.
      assert (last_write (state_write <$> pre) status_key = None) as Hpre.
      { apply no_special_write. intros st' Hin. apply Hnone.
        apply elem_of_app. by left. }
      assert (last_write (state_write <$> post) status_key = None) as Hpost.
      { apply no_special_write. intros st' Hin. apply Hnone.
        apply elem_of_app. by right. }
      split.
      * intros v Hv. rewrite run_writes_untouched; [done| |by eexists].
        rewrite last_write_app. cbn [last_write]. by rewrite Hpost, Hpre.
      * intros Hfree Hfirst.
        rewrite run_writes_app, run_writes_cons.
        assert (dget status_key (run_writes (state_write <$> pre) (states c))
                = None) as Hmid.
        { rewrite run_writes_other_keys; [done|].
          intros always k v Hin Hk.
          apply list_elem_of_fmap in Hin as (st' & Hw & Hst').
          unfold state_write in Hw. injection Hw as _ -> _.
          destruct (is_special st') eqn:Hsp.
          - eapply Hnone; [|done..]. apply elem_of_app. by left.
          - by eapply Hfirst. }
        rewrite run_writes_untouched; [|done|].
        -- simpl. apply dmem_false in Hmid. rewrite Hmid. simpl.
           apply dget_dset_eq.
        -- apply apply_write_key_present.
  - done.
  - done.
  - done.
  - done.
  - done.
  - intros now. by eexists _, _, _.
Qed.

End state_vocabulary.

Lemma state_vocabulary_normalization_witness :
  SyncCache.state_step ([], [("in_progress", JStr "s2")])
    {| SyncCache.state_id := Some (JStr "s3");
       SyncCache.state_name := Some "In Review";
       SyncCache.state_group := Some "started" |} =
    Return ([(JStr "s3",
              {| SyncCache.state_id := Some (JStr "s3");
                 SyncCache.state_name := Some "In Review";
                 SyncCache.state_group := Some "started" |})],
            [("in_progress", JStr "s2"); ("in_review", JStr "s3")]) /\
  SyncCache.state_step ([], [("in_progress", JStr "s2")])
    {| SyncCache.state_id := Some (JStr "s9");
       SyncCache.state_name := Some "Doing";
       SyncCache.state_group := Some "started" |} =
    Return ([(JStr "s9",
              {| SyncCache.state_id := Some (JStr "s9");
                 SyncCache.state_name := Some "Doing";
                 SyncCache.state_group := Some "started" |})],
            [("in_progress", JStr "s2")]).
Proof.
  split.
  - apply (state_vocabulary_normalization [] [("in_progress", JStr "s2")]
             (JStr "s3") "In Review" (Some "started")).
    left. reflexivity.
  - apply (state_vocabulary_normalization [] [("in_progress", JStr "s2")]
             (JStr "s9") "Doing" (Some "started")).
    + discriminate.
    + discriminate.
    + by eexists.
Defined.

Section issue_delta.
Import SyncCache SyncSpec.

Variables (ident : jval) (sbi : odict jval state_desc).

Lemma delta_new l acc k :
  k ∈ acc_new (foldl (issue_effect ident sbi) acc l) <->
  k ∈ acc_new acc \/
  (k ∈ entry_key ident <$> l /\ dget k (acc_issues acc) = None).
Proof.
  revert acc. induction l as [|e l IH]; intros acc.
  - simpl. split; [by left|]. intros [?|[Hin _]]; [done|].
    by apply elem_of_nil in Hin.
  - simpl foldl. rewrite IH. simpl. rewrite elem_of_app, elem_of_cons.
    rewrite dget_dset.
    destruct (decide (entry_key ident e = k)) as [<-|Hne].
    + destruct (dget _ (acc_issues acc)).
      * rewrite elem_of_nil. intuition congruence.
      * rewrite list_elem_of_singleton. intuition congruence.
    + assert (k ∉ match dget (entry_key ident e) (acc_issues acc) with
                  | Some _ => [] | None => [entry_key ident e] end).
      { destruct (dget _ _); [apply not_elem_of_nil|].
        rewrite list_elem_of_singleton. congruence. }
      intuition congruence.
Qed.

Lemma delta_updated l acc k :
  NoDup (entry_key ident <$> l) ->
  k ∈ acc_updated (foldl (issue_effect ident sbi) acc l) <->
  k ∈ acc_updated acc \/
  exists e old,
    e ∈ l /\ entry_key ident e = k /\
    dget k (acc_issues acc) = Some old /\
    i_updated_at old ≠ issue_updated_at e.
Proof.
  revert acc. induction l as [|e l IH]; intros acc Hnd.
  - simpl. split; [by left|]. intros [?|(e & old & Hin & _)]; [done|].
    by apply elem_of_nil in Hin.
  - rewrite fmap_cons in Hnd. apply NoDup_cons in Hnd as [Hfresh Hnd].
    simpl foldl. rewrite (IH _ Hnd). simpl. rewrite elem_of_app.
    split.
    + intros [[Hk|Hk]|(e' & old & Hin & Hkey & Hget & Hdiff)].
      * by left.
      * right. destruct (dget _ (acc_issues acc)) as [old|] eqn:Hold;
          [|by apply elem_of_nil in Hk].
        case_bool_decide as Hdiff; [|by apply elem_of_nil in Hk].
        apply list_elem_of_singleton in Hk. subst k.
        exists e, old. split; [apply list_elem_of_here|done].
      * right. exists e', old. split; [by apply list_elem_of_further|].
        split; [done|]. split; [|done].
        rewrite dget_dset_ne in Hget; [done|].
        intros Heq. apply Hfresh. rewrite Heq, <- Hkey.
        by apply list_elem_of_fmap_2.
    + intros [Hk|(e' & old & Hin & Hkey & Hget & Hdiff)]; [by left; left|].
      apply elem_of_cons in Hin as [->|Hin].
      * left. right. rewrite Hkey, Hget.
        rewrite bool_decide_eq_true_2 by done. apply list_elem_of_here.
      * right. exists e', old. split; [done|]. split; [done|].
        split; [|done]. rewrite dget_dset_ne; [done|].
        intros Heq. apply Hfresh. rewrite Heq, <- Hkey.
        by apply list_elem_of_fmap_2.
Qed.

Lemma last_write_issue_key l k v :
  last_write (issue_write ident sbi <$> l) k = Some v ->
  k ∈ entry_key ident <$> l.
Proof.
  induction l as [|e l IH]; [done|].
  rewrite !fmap_cons, elem_of_cons. cbn [last_write issue_write].
  destruct (last_write _ _); [right; by apply IH|].
  simpl. case_bool_decide; [by left|done].
Qed.

Lemma delta_stored l acc e :
  NoDup (entry_key ident <$> l) -> e ∈ l ->
  dget (entry_key ident e) (acc_issues (foldl (issue_effect ident sbi) acc l))
  = Some (issue_record sbi e).
Proof.
  intros Hnd Hin. rewrite issues_loop_writes.
  apply run_writes_last.
  induction l as [|e' l IH]; [by apply elem_of_nil in Hin|].
  rewrite fmap_cons in Hnd. apply NoDup_cons in Hnd as [Hfresh Hnd].
  rewrite fmap_cons. cbn [last_write issue_write].
  apply elem_of_cons in Hin as [->|Hin].
  - destruct (last_write _ _) as [v|] eqn:Hlast.
    + exfalso. by apply Hfresh, (last_write_issue_key _ _ v).
    + simpl. by rewrite bool_decide_eq_true_2.
  - by rewrite (IH Hnd Hin).
Qed.

End issue_delta.

Section issue_postcondition.
Import SyncCache SyncSpec.

Lemma NoDup_fmap_eq {A B} (f : A -> B) (l : list A) x y :
  NoDup (f <$> l) -> x ∈ l -> y ∈ l -> f x = f y -> x = y.
Proof.
  induction l as [|a l IH]; [by intros _ Hx; apply elem_of_nil in Hx|].
  rewrite fmap_cons, NoDup_cons. intros [Hfresh Hnd] Hx Hy Heq.
  apply elem_of_cons in Hx as [->|Hx], Hy as [->|Hy]; auto.
  - destruct Hfresh. rewrite Heq. by apply list_elem_of_fmap_2.
  - destruct Hfresh. rewrite <- Heq. by apply list_elem_of_fmap_2.
Qed.

Lemma known_identifier_key proj ident e :
  known_identifier proj ident ->
  entry_key (project_identifier proj) e = issue_key_text ident e.
Proof.
  unfold known_identifier, project_identifier, entry_key, issue_key_of,
    issue_key_text.
  by intros [[-> ->]| ->].
Qed.

(** C7 (amended): for a sync that returns, with the just-updated
    project's identifier a string (or no identifier entry at all, when
    the placeholder PROJ stands in) and with the entries of the snapshot
    under pairwise distinct keys: every entry is stored under exactly
    "identifier-sequence number", with the record built from the entry,
    whether or not it is reported; its key is in "new" exactly when it
    was absent from the cache before the sync and in "updated" exactly
    when it was present with a different [updated_at]; and nothing but
    snapshot keys is reported. *)
Theorem issue_sync_postcondition data now w c w1 r l ident :
  loads w c -> data_issues data = Some l ->
  sync_cache data now w = (w1, Return r) ->
  known_identifier (sync_project data c) ident ->
  NoDup (issue_key_text ident <$> l) ->
  exists c1,
    loads w1 c1 /\ project c1 = sync_project data c /\
    (forall e, e ∈ l ->
       exists seq,
         issue_sequence_id e = Some seq /\
         let key := ident +:+ "-" +:+ py_str seq in
         dget key (issues c1) = Some (issue_record (sync_index data) e) /\
         (key ∈ new r <-> dget key (issues c) = None) /\
         (key ∈ updated r <->
          exists old, dget key (issues c) = Some old /\
                      i_updated_at old ≠ issue_updated_at e)) /\
    (forall k, k ∈ new r \/ k ∈ updated r ->
               k ∈ issue_key_text ident <$> l).
Proof.
  intros Hload Hl Hrun Hident Hnd.
  rewrite (sync_cache_run _ _ _ _ Hload) in Hrun.
  destruct (sync_doc data now c) as [[c1 r1]|] eqn:Hdoc; [|done].
  injection Hrun as <- <-.
  pose proof (sync_doc_Return _ _ _ _ _ Hdoc) as Hvalid.
  rewrite (sync_doc_valid _ _ _ Hvalid) in Hdoc. injection Hdoc as <- <-.
  assert (entry_key (sync_identifier data c) <$> l
          = issue_key_text ident <$> l) as Hkeys.
  { apply list_fmap_ext. intros _ e _.
    by apply known_identifier_key. }
  assert (snapshot_issues data = l) as Hsnap.
  { unfold snapshot_issues. by rewrite Hl. }
  exists (synced data now c). split; [done|]. split; [done|].
  simpl. unfold sync_acc. rewrite Hsnap. split.
  - intros e He.
    destruct Hvalid as [_ Hissues]. rewrite Hsnap in Hissues.
    pose proof (proj1 (Forall_forall _ _) Hissues e He) as Hvalid_e.
    unfold issue_valid, first_missing in Hvalid_e.
    destruct (issue_sequence_id e) as [seq|] eqn:Hseq; [|done].
    exists seq. split; [done|].
    assert (ident +:+ "-" +:+ py_str seq
            = entry_key (sync_identifier data c) e) as ->.
    { unfold sync_identifier.
      rewrite (known_identifier_key _ ident) by done.
      unfold issue_key_text. by rewrite Hseq. }
    rewrite <- Hkeys in Hnd. split_and!.
    + rewrite <- (issues_loop_writes _ _ l
                   {| acc_issues := issues c; acc_new := [];
                      acc_updated := [] |}).
      by apply delta_stored.
    + rewrite delta_new. simpl. split.
      * by intros [Hk|[_ ?]]; [apply elem_of_nil in Hk|].
      * intros Hnone. right. split; [|done]. by apply list_elem_of_fmap_2.
    + rewrite delta_updated by done. simpl. split.
      * intros [Hk|(e' & old & He' & Hkey & Hget & Hdiff)];
          [by apply elem_of_nil in Hk|].
        exists old. split; [done|].
        by rewrite <- (NoDup_fmap_eq _ _ _ _ Hnd He' He Hkey).
      * intros (old & Hget & Hdiff). right. by exists e, old.
  - intros k [Hk|Hk].
    + apply delta_new in Hk as [Hk|[Hk _]];
        [by apply elem_of_nil in Hk|]. by rewrite <- Hkeys.
    + rewrite <- Hkeys in Hnd.
      apply delta_updated in Hk as [Hk|(e & old & He & Hkey & _)];
        [by apply elem_of_nil in Hk| |done].
      rewrite <- Hkeys, <- Hkey. by apply list_elem_of_fmap_2.
Qed.

End issue_postcondition.

Lemma issue_sync_postcondition_witness :
  exists c1,
    loads (SyncCache.sync_cache sample_snapshot "T1" fresh_world).1 c1 /\
    dget "CCPRISM-27" (issues c1) =
      Some {| i_id := JStr "u-27"; i_name := JStr "Ship it";
              i_state := JStr "In Progress"; i_state_id := JStr "s2";
              i_priority := JStr "none";
              i_updated_at := JStr "2025-01-01T00:00:00Z" |} /\
    "CCPRISM-27" ∈
      match (SyncCache.sync_cache sample_snapshot "T1" fresh_world).2 with
      | Return r => SyncCache.new r
      | Raise _ => []
      end.
Proof.
  destruct (issue_sync_postcondition sample_snapshot "T1" fresh_world
              empty_cache _ _ [sample_entry 27 "2025-01-01T00:00:00Z"]
              "CCPRISM" eq_refl eq_refl eq_refl (or_intror eq_refl))
    as (c1 & Hload & _ & Hentries & _).
  { apply NoDup_singleton. }
  destruct (Hentries (sample_entry 27 "2025-01-01T00:00:00Z"))
    as (seq & Hseq & Hget & Hnew & _).
  { apply list_elem_of_here. }
  injection Hseq as <-.
  exists c1. split; [exact Hload|]. split; [exact Hget|].
  apply Hnew. reflexivity.
Defined.

(** C7, as stated, fails: a snapshot that lists sequence number 1 twice
    with two timestamps, synced into an empty cache, reports PROJ-1 as
    updated although the key was absent before the sync. *)
Lemma repeated_key_counterexample : ¬ updated_judged_before_sync.
Proof.
  intros Hclaim.
  destruct (Hclaim repeated_snapshot "T1" fresh_world empty_cache _ _ _
              (sample_entry 1 "2025-01-01T00:00:00Z")
              eq_refl eq_refl eq_refl) as [Hupdated _].
  { apply list_elem_of_here. }
  destruct Hupdated as (old & Hold & _); [|done].
  apply list_elem_of_here.
Qed.

(** A project descriptor without an identifier stores [None] for it, and
    the key of sequence number 27 is then formatted from [None]. *)
Lemma null_identifier_key :
  exists w r c,
    SyncCache.sync_cache
      {| SyncCache.data_project :=
           Some {| SyncCache.proj_id := JStr "p-1";
                   SyncCache.proj_identifier := JNull;
                   SyncCache.proj_name := JStr "Prism";
                   SyncCache.proj_workspace := None |};
         SyncCache.data_states := None;
         SyncCache.data_issues := Some [sample_entry 27 "T0"] |}
      "T1" fresh_world = (w, Return r) /\
    loads w c /\ dkeys (issues c) = ["None-27"].
Proof. by eexists _, _, _. Qed.

Section sync_failure.
Import SyncCache SyncSpec.

(** C4 (amended): when a snapshot's issues list has an entry that lacks
    its sequence number, id or name, and the entries before it and the
    states are complete, [sync_cache] raises [KeyError] for the first
    key the entry lacks.  The exception reaches the caller, no result is
    returned, nothing is saved and the cache file is as it was: the
    whole batch is dropped at the first bad entry. *)
Theorem malformed_snapshot_raises data now w c pre bad post field :
  loads w c ->
  Forall state_valid (snapshot_states data) ->
  data_issues data = Some (pre ++ bad :: post) ->
  Forall issue_valid pre ->
  first_missing bad = Some field ->
  sync_cache data now w = (w, Raise (KeyError field)) /\
  field ∈ ["sequence_id"; "id"; "name"].
Proof.
  intros Hload Hstates Hissues Hpre Hbad.
  rewrite (sync_cache_run _ _ _ _ Hload). split.
  - unfold sync_doc. rewrite Hissues.
    unfold snapshot_states in Hstates.
    destruct (data_states data) as [ls|]; simpl in *.
    + rewrite (states_loop_valid _ _ _ Hstates). simpl.
      by rewrite (issues_loop_raise _ _ _ _ _ _ _ Hpre Hbad).
    + by rewrite (issues_loop_raise _ _ _ _ _ _ _ Hpre Hbad).
  - unfold first_missing in Hbad. rewrite !elem_of_cons.
    destruct (issue_sequence_id bad), (issue_id bad), (issue_name bad);
      naive_solver.
Qed.

(** C8 (amended): [load_cache] returns the stored document when the file
    holds one and the empty skeleton when there is no file.  When the
    file's content is not valid JSON it raises the decoder's exception;
    every operation passes the exception on to its caller, returns no
    result and leaves the world as it was. *)
Theorem load_cache_behaviour w :
  (forall doc, file w = Stored doc -> load_cache w = (w, Return doc)) /\
  (file w = NoFile ->
   load_cache w =
     (w, Return {| project := []; states := []; issues := [];
                   linked := []; lastSync := JNull |})) /\
  (file w = Garbage ->
   load_cache w = (w, Raise JSONDecodeError) /\
   (forall data now, sync_cache data now w = (w, Raise JSONDecodeError)) /\
   (forall now, touch_cache now w = (w, Raise JSONDecodeError)) /\
   (forall key issue_data now,
      AddIssue.add_issue key issue_data now w
        = (w, Raise JSONDecodeError)) /\
   (forall issue_key task_file,
      AddLink.add_link issue_key task_file w
        = (w, Raise JSONDecodeError)) /\
   (forall issue_key,
      AddLink.remove_link issue_key w = (w, Raise JSONDecodeError)) /\
   (forall cache_path td check_status,
      Discover.discover cache_path td check_status w
        = (w, Raise JSONDecodeError))).
Proof.
  split_and!.
  - intros doc Hfile. unfold load_cache. by rewrite Hfile.
  - intros Hfile. unfold load_cache. by rewrite Hfile.
  - intros Hfile.
    assert (load_cache w = (w, Raise JSONDecodeError)) as Hload.
    { unfold load_cache. by rewrite Hfile. }
    split_and!; try done.
    + intros. unfold sync_cache, bind. by rewrite Hload.
    + intros. unfold touch_cache, bind. by rewrite Hload.
    + intros. unfold AddIssue.add_issue, bind. by rewrite Hload.
    + intros. unfold AddLink.add_link, bind. by rewrite Hload.
    + intros. unfold AddLink.remove_link, bind. by rewrite Hload.
    + intros. unfold Discover.discover, bind, Discover.load_cache.
      by rewrite Hfile.
Qed.

End sync_failure.

Lemma malformed_snapshot_raises_witness :
  SyncCache.sync_cache malformed_snapshot "T1" one_link_world =
    (one_link_world, Raise (KeyError "name")) /\
  "name" ∈ ["sequence_id"; "id"; "name"].
Proof.
  eapply (malformed_snapshot_raises malformed_snapshot "T1" one_link_world
            _ [sample_entry 1 "2025-01-01T00:00:00Z"] _ []).
  - reflexivity.
  - apply Forall_nil_2.
  - reflexivity.
  - apply Forall_cons. split; [reflexivity|apply Forall_nil_2].
  - reflexivity.
Defined.

(** C4, as stated, fails: syncing the snapshot whose second issue has no
    name returns no result. *)
Lemma malformed_sync_counterexample : ¬ malformed_sync_returns.
Proof.
  intros Hclaim.
  destruct (Hclaim malformed_snapshot "T1" fresh_world empty_cache _
              {| SyncCache.issue_id := Some (JStr "u-2");
                 SyncCache.issue_name := None;
                 SyncCache.issue_sequence_id := Some (JInt 2);
                 SyncCache.issue_state := None;
                 SyncCache.issue_priority := None;
                 SyncCache.issue_updated_at := JNull |}
              eq_refl eq_refl) as [r Hr].
  - apply list_elem_of_further, list_elem_of_here.
  - discriminate.
  - discriminate.
Qed.

Lemma load_cache_behaviour_witness :
  load_cache one_issue_world =
    (one_issue_world,
     Return {| project := []; states := [];
               issues := [("CCPRISM-1", sample_issue)];
               linked := []; lastSync := JNull |}) /\
  load_cache fresh_world = (fresh_world, Return empty_cache) /\
  SyncCache.sync_cache sample_snapshot "T1" {| file := Garbage; saves := 3 |}
    = ({| file := Garbage; saves := 3 |}, Raise JSONDecodeError).
Proof.
  split_and!.
  - by apply (load_cache_behaviour one_issue_world).
  - by apply (load_cache_behaviour fresh_world).
  - by apply (load_cache_behaviour {| file := Garbage; saves := 3 |}).
Defined.

(** C8, as stated, fails: with invalid content in the cache file an
    operation returns no result. *)
Lemma corrupt_cache_counterexample : ¬ corrupt_cache_returns.
Proof.
  intros Hclaim.
  destruct (Hclaim sample_snapshot "T1" {| file := Garbage; saves := 0 |}
              eq_refl) as [r Hr].
  discriminate.
Qed.

(** ** The discovery engine *)

Section discovery.
Import Discover DiscoverSpec.

Lemma frontmatter_truthy_spec td name :
  frontmatter_truthy (parse_task_frontmatter td name) = true <->
  exists fm, has_frontmatter td name fm.
Proof.
  unfold has_frontmatter.
  destruct (parse_task_frontmatter td name) as [[|x fm]|]; simpl.
  - split; [done|]. by intros (fm & [= <-] & ?).
  - split; [|done]. intros _. by eexists.
  - split; [done|]. by intros (fm & ? & _).
Qed.

Lemma frontmatter_falsy_spec td name :
  frontmatter_truthy (parse_task_frontmatter td name) = false <->
  no_frontmatter td name.
Proof.
  unfold no_frontmatter.
  destruct (parse_task_frontmatter td name) as [[|x fm]|]; simpl.
  - split; [by right|done].
  - split; [done|]. by intros [?|?].
  - split; [by left|done].
Qed.

Lemma in_unlinked_tasks td linked u :
  u ∈ find_unlinked_tasks td linked <->
  exists name, name ∈ get_task_files td /\
               u ∈ unlinked_task_entry td linked name.
Proof.
  unfold find_unlinked_tasks.
  rewrite list_elem_of_In, in_flat_map.
  by setoid_rewrite <- list_elem_of_In.
Qed.

Lemma unlinked_task_entry_file td linked name u :
  u ∈ unlinked_task_entry td linked name ->
  entry_file u = name /\ name ∉ dvalues linked.
Proof.
  unfold unlinked_task_entry. case_bool_decide as Hlinked; simpl.
  { intros Hu. by apply elem_of_nil in Hu. }
  destruct (frontmatter_truthy _);
    [|intros Hu; by apply elem_of_nil in Hu].
  destruct (dget "plane_issue" _) as [p|].
  - destruct (str_truthy p && negb (dmem p linked)).
    + intros ->%list_elem_of_singleton. done.
    + destruct (negb (str_truthy p)).
      * intros ->%list_elem_of_singleton. done.
      * intros Hu. by apply elem_of_nil in Hu.
  - intros ->%list_elem_of_singleton. done.
Qed.

Lemma discover_run cache_path td check_status w c :
  file w = Stored c ->
  discover cache_path td check_status w =
    match (if check_status
           then ofold (mismatch_step td (issues c)) [] (linked c)
           else Return []) with
    | Return ms =>
        (w, Return (Found
           {| unlinked_issues := find_unlinked_issues (issues c) (linked c);
              unlinked_tasks := find_unlinked_tasks td (linked c);
              status_mismatches := ms;
              report_summary :=
                {| n_unlinked_issues :=
                     length (find_unlinked_issues (issues c) (linked c));
                   n_unlinked_tasks :=
                     length (find_unlinked_tasks td (linked c));
                   n_mismatches := length ms;
                   total_issues := length (issues c);
                   total_linked := length (linked c) |} |}))
    | Raise e => (w, Raise e)
    end.
Proof.
  intros Hfile. unfold discover, bind, Discover.load_cache, lift.
  rewrite Hfile. by destruct (if check_status then _ else _).
Qed.

Lemma discover_unlinked_tasks cache_path td check_status w c r :
  file w = Stored c ->
  (discover cache_path td check_status w).2 = Return (Found r) ->
  unlinked_tasks r = find_unlinked_tasks td (linked c).
Proof.
  intros Hfile. rewrite (discover_run _ _ _ _ _ Hfile).
  destruct (if check_status then _ else _); simpl; [|done].
  by intros [= <-].
Qed.

(** C5 (amended): among the enumerated task files whose name is no
    link value, those with a frontmatter mapping of at least one entry
    are reported: tagged with the claim when the frontmatter declares a
    non-empty [plane_issue] that is no link key, and bare (file and
    status) when it declares no [plane_issue] or an empty one.  A file
    without frontmatter, or with an empty mapping, is not reported.
    Every reported entry names an enumerated file that is no link
    value. *)
Theorem unlinked_tasks_report cache_path td check_status w c r name :
  file w = Stored c ->
  (discover cache_path td check_status w).2 = Return (Found r) ->
  name ∈ get_task_files td -> name ∉ dvalues (linked c) ->
  (forall fm, has_frontmatter td name fm ->
     (forall p, dget "plane_issue" fm = Some p -> p ≠ "" ->
                dget p (linked c) = None ->
                Claiming name p (dget "status" fm) ∈ unlinked_tasks r) /\
     (dget "plane_issue" fm = None \/ dget "plane_issue" fm = Some "" ->
      Bare name (dget "status" fm) ∈ unlinked_tasks r)) /\
  (no_frontmatter td name ->
   forall u, u ∈ unlinked_tasks r -> entry_file u ≠ name) /\
  (forall u, u ∈ unlinked_tasks r ->
             entry_file u ∈ get_task_files td /\
             entry_file u ∉ dvalues (linked c)).
Proof.
  intros Hfile Hrun Hname Hfree.
  rewrite (discover_unlinked_tasks _ _ _ _ _ _ Hfile Hrun).
  split_and!.
  - intros fm [Hparse Hne].
    assert (forall u, u ∈ unlinked_task_entry td (linked c) name ->
                      u ∈ find_unlinked_tasks td (linked c)) as Hentry.
    { intros u Hu. apply in_unlinked_tasks. by exists name. }
    assert (frontmatter_truthy (parse_task_frontmatter td name) = true)
      as Htruthy.
    { apply frontmatter_truthy_spec. by exists fm. }
    split.
    + intros p Hp Hpne Hpfree. apply Hentry.
      unfold unlinked_task_entry.
      rewrite bool_decide_eq_false_2 by done. simpl.
      rewrite Htruthy, Hparse. simpl. rewrite Hp.
      unfold str_truthy. rewrite bool_decide_eq_false_2 by done.
      apply dmem_false in Hpfree. rewrite Hpfree. simpl.
      apply list_elem_of_here.
    + intros Hp. apply Hentry. unfold unlinked_task_entry.
      rewrite bool_decide_eq_false_2 by done. simpl.
      rewrite Htruthy, Hparse. simpl.
      destruct Hp as [-> | ->]; simpl; apply list_elem_of_here.
  - intros Hnone u Hu Hfile_u.
    apply in_unlinked_tasks in Hu as (name' & _ & Hu).
    pose proof (unlinked_task_entry_file _ _ _ _ Hu) as [Hname' _].
    rewrite Hfile_u in Hname'. subst name'.
    apply frontmatter_falsy_spec in Hnone.
    unfold unlinked_task_entry in Hu. rewrite Hnone in Hu.
    destruct (negb _); by apply elem_of_nil in Hu.
  - intros u Hu. apply in_unlinked_tasks in Hu as (name' & Hin & Hu).
    apply unlinked_task_entry_file in Hu as [-> ?]. done.
Qed.

End discovery.

Lemma unlinked_tasks_report_witness :
  exists r,
    (Discover.discover ".claude/plane-sync.json"
       (DiscoverSpec.single_task
          (Some [("status", "pending"); ("plane_issue", "CCPRISM-9")]))
       false one_issue_world).2 = Return (Discover.Found r) /\
    Discover.Claiming "a.md" "CCPRISM-9" (Some "pending")
      ∈ Discover.unlinked_tasks r.
Proof.
  eexists. split; [reflexivity|].
  destruct (unlinked_tasks_report ".claude/plane-sync.json"
              (DiscoverSpec.single_task
                 (Some [("status", "pending"); ("plane_issue", "CCPRISM-9")]))
              false one_issue_world _ _ "a.md" eq_refl eq_refl)
    as (Hreported & _ & _).
  - apply list_elem_of_here.
  - apply not_elem_of_nil.
  - destruct (Hreported
                [("status", "pending"); ("plane_issue", "CCPRISM-9")])
      as [Hclaim _].
    + split; [reflexivity|discriminate].
    + apply Hclaim; [reflexivity|discriminate|reflexivity].
Defined.

(** C5, as stated, fails: a task file without frontmatter that no link
    names is left out of [unlinked_tasks]. *)
Lemma no_frontmatter_counterexample : ¬ DiscoverSpec.unlinked_tasks_complete.
Proof.
  intros Hclaim.
  destruct (Hclaim ".claude/plane-sync.json" (DiscoverSpec.single_task None)
              false one_issue_world _ _ "a.md" eq_refl eq_refl)
    as (u & Hu & _).
  - apply list_elem_of_here.
  - apply not_elem_of_nil.
  - by apply elem_of_nil in Hu.
Qed.

Section status_mismatches.
Import Discover DiscoverSpec.

Lemma mismatch_step_string td c acc issue_key task_file actual :
  stored_state c issue_key = JStr actual ->
  mismatch_step td (issues c) acc (issue_key, task_file) =
    Return (acc ++ link_mismatch td c (issue_key, task_file)).
Proof.
  unfold mismatch_step, link_mismatch, stored_state. intros Hstate.
  destruct (task_exists td task_file); simpl; [|by rewrite app_nil_r].
  destruct (frontmatter_truthy _); simpl; [|by rewrite app_nil_r].
  rewrite Hstate. destruct (bool_decide _); [done|by rewrite app_nil_r].
Qed.

Lemma mismatch_loop td c l acc :
  (forall issue_key task_file,
     (issue_key, task_file) ∈ l ->
     exists actual, stored_state c issue_key = JStr actual) ->
  ofold (mismatch_step td (issues c)) acc l =
    Return (acc ++ flat_map (link_mismatch td c) l).
Proof.
  revert acc. induction l as [|[k t] l IH]; intros acc Hstr.
  - simpl. by rewrite app_nil_r.
  - destruct (Hstr k t) as [actual Hactual]; [apply list_elem_of_here|].
    rewrite ofold_cons, (mismatch_step_string _ _ _ _ _ _ Hactual).
    simpl obind. rewrite IH.
    + simpl flat_map. by rewrite app_assoc.
    + intros k' t' Hin. apply (Hstr k' t'). by apply list_elem_of_further.
Qed.


End status_mismatches.

Section status_report.
Import Discover DiscoverSpec.



End status_report.



(** ** Further properties of the operations *)

Section further_properties.
Import SyncCache SyncSpec.

(** X1 (unlink): [remove_link] fails with the not-linked error, and
    changes nothing, when the issue key has no link; otherwise it saves
    the document without that link, every other link as it was, and
    returns the task file that was linked. *)
Theorem remove_link_outcomes w c issue_key :
  loads w c ->
  (dget issue_key (linked c) = None ->
   AddLink.remove_link issue_key w =
     (w, Return (AddLink.UnlinkFailed (not_linked_error issue_key)))) /\
  (forall task_file,
     dget issue_key (linked c) = Some task_file ->
     AddLink.remove_link issue_key w =
       ({| file := Stored {| project := project c; states := states c;
                             issues := issues c;
                             linked := dpop issue_key (linked c);
                             lastSync := lastSync c |};
           saves := S (saves w) |},
        Return (AddLink.Unlinked issue_key task_file)) /\
     (dict_wf (linked c) ->
      dget issue_key (dpop issue_key (linked c)) = None) /\
     (forall k, k ≠ issue_key ->
                dget k (dpop issue_key (linked c)) = dget k (linked c))).
Proof.
  intros Hload. split.
  - intros Hnone. unfold AddLink.remove_link, bind.
    by rewrite Hload, Hnone.
  - intros task_file Hsome. split; [|split].
    + unfold AddLink.remove_link, bind. by rewrite Hload, Hsome.
    + apply dget_dpop_eq.
    + intros k Hk. by apply dget_dpop_ne.
Qed.


(** X3 (no pruning): a sync that returns removes no issue and touches no
    link: every issue key cached before it is cached after it, whether
    or not the snapshot lists it. *)
Theorem sync_keeps_issues data now w c w1 r :
  loads w c -> sync_cache data now w = (w1, Return r) ->
  exists c1,
    loads w1 c1 /\ linked c1 = linked c /\
    forall k, is_Some (dget k (issues c)) -> is_Some (dget k (issues c1)).
Proof.
  intros Hload Hsync. rewrite (sync_cache_run _ _ _ _ Hload) in Hsync.
  destruct (sync_doc data now c) as [[c1 r1]|] eqn:Hdoc; [|done].
  injection Hsync as <- <-.
  pose proof (sync_doc_Return _ _ _ _ _ Hdoc) as Hvalid.
  rewrite (sync_doc_valid _ _ _ Hvalid) in Hdoc. injection Hdoc as <- _.
  eexists. split; [done|]. split; [done|].
  intros k Hk. simpl. by apply run_writes_present.
Qed.

(** X4 (workspace retention): a sync with a project descriptor overwrites
    the four project fields; the workspace is the descriptor's when it
    has one and the cached one when it has none. *)
Theorem sync_project_fields data now w c w1 r p :
  loads w c -> data_project data = Some p ->
  sync_cache data now w = (w1, Return r) ->
  exists c1,
    loads w1 c1 /\
    project c1 =
      [("id", proj_id p); ("identifier", proj_identifier p);
       ("name", proj_name p);
       ("workspace",
        match proj_workspace p with
        | Some workspace => workspace
        | None => default JNull (dget "workspace" (project c))
        end)].
Proof.
  intros Hload Hp Hsync. rewrite (sync_cache_run _ _ _ _ Hload) in Hsync.
  destruct (sync_doc data now c) as [[c1 r1]|] eqn:Hdoc; [|done].
  injection Hsync as <- <-.
  pose proof (sync_doc_Return _ _ _ _ _ Hdoc) as Hvalid.
  rewrite (sync_doc_valid _ _ _ Hvalid) in Hdoc. injection Hdoc as <- _.
  eexists. split; [done|]. simpl. unfold sync_project. by rewrite Hp.
Qed.

(** X5 (issue upsert): [add_issue] stores the entry built from the given
    fields under the key, in place when the key is cached and last when
    it is new, and returns "updated" or "added" accordingly; the entry
    point calls it exactly when id and name are both non-empty. *)
Theorem add_issue_outcomes w c key issue_data now :
  loads w c ->
  let entry :=
    {| i_id := AddIssue.f_id issue_data;
       i_name := AddIssue.f_name issue_data;
       i_state := AddIssue.f_state issue_data;
       i_state_id := AddIssue.f_state_id issue_data;
       i_priority := default (JStr "none") (AddIssue.f_priority issue_data);
       i_updated_at :=
         default (JStr now) (AddIssue.f_updated_at issue_data) |} in
  AddIssue.add_issue key issue_data now w =
    ({| file := Stored {| project := project c; states := states c;
                          issues := dset key entry (issues c);
                          linked := linked c; lastSync := lastSync c |};
        saves := S (saves w) |},
     Return (AddIssue.Upserted key
               (if dmem key (issues c) then "updated" else "added")
               (AddIssue.f_name issue_data))) /\
  dget key (dset key entry (issues c)) = Some entry /\
  (dget key (issues c) = None ->
   dset key entry (issues c) = issues c ++ [(key, entry)]) /\
  (is_Some (dget key (issues c)) ->
   dkeys (dset key entry (issues c)) = dkeys (issues c)) /\
  (truthy (AddIssue.f_id issue_data) = true ->
   truthy (AddIssue.f_name issue_data) = true ->
   AddIssue.main key issue_data now w =
     AddIssue.add_issue key issue_data now w).
Proof.
  intros Hload entry. split_and!.
  - unfold AddIssue.add_issue, bind. by rewrite Hload.
  - apply dget_dset_eq.
  - apply dset_fresh.
  - apply dkeys_dset_present.
  - intros Hid Hname. unfold AddIssue.main. by rewrite Hid, Hname.
Qed.

End further_properties.

Section unlinked_issues.
Import Discover DiscoverSpec.

Lemma find_unlinked_issues_get (issues : odict string issue)
    (linked : odict string string) (acc : odict string (jval * jval))
    (k : string) :
  dict_wf issues ->
  dget k (foldl (fun acc '(key, i) =>
                   if negb (dmem key linked)
                   then dset key (i_name i, i_state i) acc
                   else acc) acc issues) =
    match dget k issues with
    | Some i => if dmem k linked then dget k acc
                else Some (i_name i, i_state i)
    | None => dget k acc
    end.
Proof.
  unfold dict_wf, dkeys. revert acc.
  induction issues as [|[k0 i0] issues IH]; intros acc Hwf; [done|].
  rewrite fmap_cons in Hwf. apply NoDup_cons in Hwf as [Hfresh Hwf].
  simpl foldl. rewrite (IH _ Hwf).
  change (dget k ((k0, i0) :: issues))
    with (if decide (k0 = k) then Some i0 else dget k issues).
  destruct (decide (k0 = k)) as [->|Hne].
  - assert (dget k issues = None) as -> by by apply dget_None.
    destruct (dmem k linked); simpl; [done|]. apply dget_dset_eq.
  - assert (dget k (if negb (dmem k0 linked)
                    then dset k0 (i_name i0, i_state i0) acc else acc)
            = dget k acc) as ->; [|done].
    destruct (negb _); [|done]. by apply dget_dset_ne.
Qed.

(** X6 (unlinked issues): the report's [unlinked_issues] holds exactly the
    cached issues whose key has no link, each projected to its name and
    state, and the summary counts them.  With the single unlinked issue
    CCPRISM-1 and no task file, the report has that issue,
    no unlinked task, and the count 1. *)
Theorem unlinked_issues_report cache_path td check_status w c r :
  file w = Stored c -> dict_wf (issues c) ->
  (discover cache_path td check_status w).2 = Return (Found r) ->
  (forall k v,
     dget k (unlinked_issues r) = Some v <->
     exists i, dget k (issues c) = Some i /\ dget k (linked c) = None /\
               v = (i_name i, i_state i)) /\
  n_unlinked_issues (report_summary r) = length (unlinked_issues r) /\
  total_issues (report_summary r) = length (issues c) /\
  total_linked (report_summary r) = length (linked c) /\
  (exists r0,
     discover cache_path
       {| get_task_files := []; task_exists := fun _ => false;
          parse_task_frontmatter := fun _ => None |}
       check_status one_issue_world = (one_issue_world, Return (Found r0)) /\
     unlinked_issues r0
       = [("CCPRISM-1", (JStr "First issue", JStr "In Progress"))] /\
     unlinked_tasks r0 = [] /\
     n_unlinked_issues (report_summary r0) = 1).
Proof.
  intros Hfile Hwf. rewrite (discover_run _ _ _ _ _ Hfile).
  destruct (if check_status then _ else _) as [ms|] eqn:Hms; simpl; [|done].
  intros [= <-]. simpl. split_and!; try done.
  - intros k v. unfold find_unlinked_issues.
    rewrite find_unlinked_issues_get by done. simpl.
    destruct (dget k (issues c)) as [i|].
    + destruct (dmem k (linked c)) eqn:Hl.
      * split; [done|]. intros (i' & _ & Hnone & _).
        apply dmem_false in Hnone. congruence.
      * apply dmem_false in Hl. split.
        -- intros [= <-]. by exists i.
        -- by intros (i' & [= <-] & _ & ->).
    + split; [done|]. by intros (i' & ? & _).
  - rewrite (discover_run _ _ _ one_issue_world _ eq_refl).
    destruct check_status; by eexists.
Qed.

End unlinked_issues.

Lemma remove_link_outcomes_witness :
  AddLink.remove_link "CCPRISM-1" one_link_world =
    ({| file := Stored {| project := []; states := [];
                          issues := [("CCPRISM-1", sample_issue)];
                          linked := []; lastSync := JNull |};
        saves := 3 |},
     Return (AddLink.Unlinked "CCPRISM-1" "a.md")).
Proof.
  by apply (remove_link_outcomes one_link_world
              {| project := []; states := [];
                 issues := [("CCPRISM-1", sample_issue)];
                 linked := [("CCPRISM-1", "a.md")]; lastSync := JNull |}
              "CCPRISM-1" eq_refl).
Defined.


Lemma sync_keeps_issues_witness :
  exists c1,
    loads (SyncCache.sync_cache sample_snapshot "T1" one_link_world).1 c1 /\
    linked c1 = [("CCPRISM-1", "a.md")] /\
    is_Some (dget "CCPRISM-1" (issues c1)).
Proof.
  destruct (sync_keeps_issues sample_snapshot "T1" one_link_world
              _ _ _ eq_refl eq_refl) as (c1 & Hload & Hlinked & Hkept).
  exists c1. split; [exact Hload|]. split; [exact Hlinked|].
  apply Hkept. by eexists.
Defined.

Lemma sync_project_fields_witness :
  exists c1,
    loads (SyncCache.sync_cache sample_snapshot "T1" fresh_world).1 c1 /\
    project c1 =
      [("id", JStr "p-1"); ("identifier", JStr "CCPRISM");
       ("name", JStr "Prism"); ("workspace", JNull)].
Proof.
  exact (sync_project_fields sample_snapshot "T1" fresh_world
           _ _ _ _ eq_refl eq_refl eq_refl).
Defined.

Lemma add_issue_outcomes_witness :
  AddIssue.main "CCPRISM-1" sample_fields "T2" one_issue_world =
    ({| file := Stored {| project := []; states := [];
                          issues := [("CCPRISM-1", sample_issue)];
                          linked := []; lastSync := JNull |};
        saves := 2 |},
     Return (AddIssue.Upserted "CCPRISM-1" "updated" (JStr "First issue"))).
Proof.
  destruct (add_issue_outcomes one_issue_world
              {| project := []; states := [];
                 issues := [("CCPRISM-1", sample_issue)];
                 linked := []; lastSync := JNull |}
              "CCPRISM-1" sample_fields "T2" eq_refl)
    as (Hrun & _ & _ & _ & Hmain).
  rewrite Hmain, Hrun; reflexivity.
Defined.

Lemma unlinked_issues_report_witness :
  exists r,
    (Discover.discover ".claude/plane-sync.json"
       (DiscoverSpec.single_task None) false one_issue_world).2
      = Return (Discover.Found r) /\
    dget "CCPRISM-1" (Discover.unlinked_issues r)
      = Some (JStr "First issue", JStr "In Progress").
Proof.
  eexists. split; [reflexivity|].
  destruct (unlinked_issues_report ".claude/plane-sync.json"
              (DiscoverSpec.single_task None) false one_issue_world
              _ _ eq_refl (NoDup_singleton "CCPRISM-1") eq_refl)
    as (Hexact & _).
  apply Hexact. exists sample_issue. by split_and!.
Defined.

(** ** Steps of the document *)

Section document_steps.
Import SyncCache SyncSpec.

Lemma sync_cache_step data now w c :
  loads w c ->
  (sync_cache data now w).1 = w \/
  snapshot_valid data /\
  loads (sync_cache data now w).1 (synced data now c).
Proof.
  intros Hload. rewrite (sync_cache_run _ _ _ _ Hload).
  destruct (sync_doc data now c) as [[c1 r]|e] eqn:Hdoc; [|by left].
  pose proof (sync_doc_Return _ _ _ _ _ Hdoc) as Hvalid.
  rewrite (sync_doc_valid _ _ _ Hvalid) in Hdoc. injection Hdoc as <- _.
  by right.
Qed.

Lemma touch_cache_step now w c :
  loads w c ->
  loads (touch_cache now w).1
    {| project := project c; states := states c; issues := issues c;
       linked := linked c; lastSync := JStr now |}.
Proof. intros Hload. unfold touch_cache, bind. by rewrite Hload. Qed.

Lemma add_issue_step key issue_data now w c :
  loads w c ->
  exists entry,
    loads (AddIssue.add_issue key issue_data now w).1
      {| project := project c; states := states c;
         issues := dset key entry (issues c); linked := linked c;
         lastSync := lastSync c |}.
Proof.
  intros Hload. unfold AddIssue.add_issue, bind. rewrite !Hload. simpl.
  by eexists.
Qed.

Lemma add_link_step issue_key task_file w c :
  loads w c ->
  (AddLink.add_link issue_key task_file w).1 = w \/
  is_Some (dget issue_key (issues c)) /\
  (forall existing,
     dget issue_key (linked c) = Some existing ->
     existing = "" \/ existing = task_file) /\
  AddLink.task_owner issue_key task_file (linked c) = None /\
  loads (AddLink.add_link issue_key task_file w).1
    {| project := project c; states := states c; issues := issues c;
       linked := dset issue_key task_file (linked c);
       lastSync := lastSync c |}.
Proof.
  intros Hload. rewrite (add_link_run _ _ _ _ Hload).
  destruct (dmem issue_key (issues c)) eqn:Hmem; simpl; [|by left].
  destruct (AddLink.opt_truthy _ && _) eqn:Hconf; [by left|].
  destruct (AddLink.task_owner _ _ _) eqn:Hown; [by left|].
  right. split_and!; [by apply dmem_true| |done|done].
  intros existing Hex. rewrite Hex in Hconf. simpl in Hconf.
  apply andb_false_iff in Hconf as [Hc|Hc].
  - left. unfold str_truthy in Hc. apply negb_false_iff in Hc.
    by apply bool_decide_eq_true in Hc.
  - right. apply bool_decide_eq_false in Hc. apply dec_stable in Hc.
    congruence.
Qed.

Lemma remove_link_step issue_key w c :
  loads w c ->
  (AddLink.remove_link issue_key w).1 = w \/
  is_Some (dget issue_key (linked c)) /\
  loads (AddLink.remove_link issue_key w).1
    {| project := project c; states := states c; issues := issues c;
       linked := dpop issue_key (linked c); lastSync := lastSync c |}.
Proof.
  intros Hload. unfold AddLink.remove_link, bind. rewrite !Hload.
  destruct (dget issue_key (linked c)) eqn:Hk; simpl; [|by left].
  right. by split.
Qed.

Lemma run_op_step o w c :
  loads w c ->
  run_op o w = w \/ exists c', cache_step c c' /\ loads (run_op o w) c'.
Proof.
  intros Hload.
  destruct o as [data now|now|key fields now|key fields now
                 |issue_key task_file|issue_key]; simpl.
  - destruct (sync_cache_step data now w c Hload) as [?|[Hv Hl]];
      [by left|right].
    eexists. split; [by apply step_sync|done].
  - right. eexists. split; [apply (step_touch c now)|].
    by apply touch_cache_step.
  - unfold AddIssue.main. destruct (_ || _); [by left|].
    destruct (add_issue_step key fields now w c Hload) as [entry Hl].
    right. eexists. split; [apply (step_upsert c key entry)|done].
  - destruct (add_issue_step key fields now w c Hload) as [entry Hl].
    right. eexists. split; [apply (step_upsert c key entry)|done].
  - destruct (add_link_step issue_key task_file w c Hload)
      as [?|(Hi & He & Ho & Hl)]; [by left|right].
    eexists. split; [by apply step_link|done].
  - destruct (remove_link_step issue_key w c Hload) as [?|[Hk Hl]];
      [by left|right].
    eexists. split; [by apply step_unlink|done].
Qed.

(** A property of documents that the empty skeleton has and every step
    keeps holds in every reachable world. *)
Lemma reachable_invariant (P : cache -> Prop) w :
  P empty_cache ->
  (forall c c', cache_step c c' -> P c -> P c') ->
  reachable w -> exists c, loads w c /\ P c.
Proof.
  intros Hempty Hstep. induction 1 as [w Hw|w o _ (c & Hload & HP)].
  - by exists empty_cache.
  - destruct (run_op_step o w c Hload) as [->|(c' & Hs & Hload')].
    + by exists c.
    + exists c'. split; [done|]. by eapply Hstep.
Qed.

Lemma dget_dpop_Some {K V} `{EqDecision K} (k k' : K) (d : odict K V) :
  is_Some (dget k' (dpop k d)) -> is_Some (dget k' d).
Proof.
  induction d as [|[k0 v0] d IH]; simpl; [done|].
  destruct (decide (k0 = k)) as [->|Hne]; simpl.
  - intros Hk'. by case_decide.
  - case_decide; [done|]. apply IH.
Qed.

Lemma links_known_step c c' :
  cache_step c c' -> links_known c -> links_known c'.
Proof.
  intros Hstep (Hwi & Hwl & Hknown).
  destruct Hstep as [data now Hvalid|now|key entry
                     |issue_key task_file Hissue _ _|issue_key _];
    unfold links_known; simpl.
  - split_and!; [by apply run_writes_wf|done|].
    intros k Hk. by apply run_writes_present, Hknown.
  - done.
  - split_and!; [by apply dict_wf_dset|done|].
    intros k Hk. rewrite dget_dset. case_decide; [by eexists|by apply Hknown].
  - split_and!; [done|by apply dict_wf_dset|].
    intros k. rewrite dget_dset. case_decide; [by subst|apply Hknown].
  - split_and!; [done|by apply dict_wf_dpop|].
    intros k Hk. by apply Hknown, (dget_dpop_Some issue_key).
Qed.

(** X7 (links name cached issues): in every world reached from the empty
    skeleton, every issue key that has a link is a cached issue, and
    neither [issues] nor [linked] holds a key twice: [add_link] refuses
    an unknown issue and nothing ever removes an issue. *)
Theorem linked_issues_are_cached w :
  reachable w ->
  exists c,
    loads w c /\ dict_wf (issues c) /\ dict_wf (linked c) /\
    forall k task_file,
      (k, task_file) ∈ linked c -> exists i, (k, i) ∈ issues c.
Proof.
  intros Hreach.
  destruct (reachable_invariant links_known w) as (c & Hload & Hk); try done.
  - split_and!; [apply NoDup_nil_2..|]. by intros k [? ?].
  - apply links_known_step.
  - destruct Hk as (Hwi & Hwl & Hknown).
    exists c. split_and!; try done.
    intros k task_file Hin.
    destruct (Hknown k) as [i Hi]; [|exists i; by apply dget_Some_elem].
    rewrite (elem_dget _ _ _ Hwl Hin). by eexists.
Qed.

End document_steps.

Lemma linked_issues_are_cached_witness :
  exists c,
    loads one_link_world c /\ dict_wf (issues c) /\ dict_wf (linked c) /\
    forall k task_file,
      (k, task_file) ∈ linked c -> exists i, (k, i) ∈ issues c.
Proof.
  apply linked_issues_are_cached.
  apply reach_step, reach_step, reach_empty. reflexivity.
Defined.

(** ** The command line *)

Section command_line.
Import SyncCache.

Lemma loads_unique w c1 c2 : loads w c1 -> loads w c2 -> c1 = c2.
Proof. unfold loads. intros H1 H2. congruence. Qed.

Lemma bind_ret_world {A B} (m : prog A) (f : A -> B) w :
  (bind m (fun r => ret (f r)) w).1 = (m w).1.
Proof. unfold bind, ret. by destruct (m w) as [w' [a|e]]. Qed.

Lemma sync_main_run_op a now w :
  (main a now w).1 = w \/
  exists o, (main a now w).1 = run_op o w /\
            forall issue_key, o ≠ OpLink issue_key "".
Proof.
  unfold main. destruct (arg_touch a).
  - right. exists (OpTouch now). split; [apply bind_ret_world|done].
  - assert (Hp : forall p,
      (bind (json_loads p)
         (fun data => bind (sync_cache data now)
                        (fun r => ret (MainSynced r))) w).1 = w \/
      exists o,
        (bind (json_loads p)
           (fun data => bind (sync_cache data now)
                          (fun r => ret (MainSynced r))) w).1 = run_op o w /\
        forall issue_key, o ≠ OpLink issue_key "").
    { intros [|data]; [by left|].
      right. exists (OpSync data now). split; [|done].
      unfold bind at 1. simpl. apply bind_ret_world. }
    destruct (arg_data a) as [p|]; [apply Hp|].
    destruct (stdin a) as [p|]; [apply Hp|by left].
Qed.

Lemma link_main_run_op issue task remove w :
  (AddLink.main issue task remove w).1 = w \/
  exists o, (AddLink.main issue task remove w).1 = run_op o w /\
            forall issue_key, o ≠ OpLink issue_key "".
Proof.
  unfold AddLink.main. destruct remove.
  - right. exists (OpUnlink issue). split; [apply bind_ret_world|done].
  - destruct task as [task|]; simpl; [|by left].
    destruct (str_truthy task) eqn:Htask; [|by left].
    right. exists (OpLink issue task). split; [apply bind_ret_world|].
    intros issue_key [= _ ->]. done.
Qed.

(** A call of the command line leaves the world alone or is one of the
    operations, and never a link to the empty task name. *)
Lemma run_cli_run_op o w :
  run_cli o w = w \/
  exists o', run_cli o w = run_op o' w /\
             forall issue_key, o' ≠ OpLink issue_key "".
Proof.
  destruct o as [a now|key issue_data now|issue task remove]; simpl.
  - apply sync_main_run_op.
  - right. exists (OpUpsert key issue_data now). by split.
  - apply link_main_run_op.
Qed.

Lemma cli_reachable_reachable w : cli_reachable w -> reachable w.
Proof.
  induction 1 as [w Hw|w o _ IH]; [by apply reach_empty|].
  destruct (run_cli_run_op o w) as [->|(o' & -> & _)]; [done|].
  by apply reach_step.
Qed.

Lemma dvalues_dset {K V} `{EqDecision K} (k : K) (v v' : V) d :
  v' ∈ dvalues (dset k v d) -> v' = v \/ v' ∈ dvalues d.
Proof.
  unfold dvalues. induction d as [|[k0 v0] d IH]; simpl.
  - rewrite list_elem_of_singleton. by left.
  - case_decide; simpl; rewrite !elem_of_cons; [tauto|].
    intros [?|Hin]; [tauto|]. destruct (IH Hin); tauto.
Qed.

Lemma dvalues_dpop {K V} `{EqDecision K} (k : K) (v' : V) d :
  v' ∈ dvalues (dpop k d) -> v' ∈ dvalues d.
Proof.
  unfold dvalues. induction d as [|[k0 v0] d IH]; simpl; [done|].
  case_decide; simpl; rewrite !elem_of_cons; tauto.
Qed.

Lemma names_nonempty_step o w c :
  (forall issue_key, o ≠ OpLink issue_key "") ->
  loads w c -> names_nonempty c ->
  exists c', loads (run_op o w) c' /\ names_nonempty c'.
Proof.
  intros Ho Hload Hnames.
  destruct o as [data now|now|key fields now|key fields now
                 |issue_key task_file|issue_key]; simpl.
  - destruct (sync_cache_step data now w c Hload) as [->|[_ Hl]];
      [by exists c|by eexists].
  - eexists. split; [by apply touch_cache_step|done].
  - unfold AddIssue.main. destruct (_ || _); [by exists c|].
    destruct (add_issue_step key fields now w c Hload) as [entry Hl].
    by eexists.
  - destruct (add_issue_step key fields now w c Hload) as [entry Hl].
    by eexists.
  - destruct (add_link_step issue_key task_file w c Hload)
      as [->|(_ & _ & _ & Hl)]; [by exists c|].
    eexists. split; [done|]. unfold names_nonempty. simpl.
    intros [Hv|Hv]%dvalues_dset; [|done].
    apply (Ho issue_key). by rewrite Hv.
  - destruct (remove_link_step issue_key w c Hload) as [->|[_ Hl]];
      [by exists c|].
    eexists. split; [done|]. unfold names_nonempty. simpl.
    by intros ?%dvalues_dpop.
Qed.

Lemma cli_names_nonempty w :
  cli_reachable w -> exists c, loads w c /\ names_nonempty c.
Proof.
  induction 1 as [w Hw|w o _ (c & Hload & Hnames)].
  - exists empty_cache. split; [done|]. apply not_elem_of_nil.
  - destruct (run_cli_run_op o w) as [->|(o' & -> & Ho')]; [by exists c|].
    by apply (names_nonempty_step o' w c).
Qed.

(** X8 (links through the command line): in every world the entry
    points lead to from the empty skeleton no link holds the empty task
    name ([add_link.py] asks for a non-empty [--task]), and so a link
    of an issue that is linked to a different task file is refused with
    the conflict error that names the stored file, the world unchanged. *)
Theorem cli_link_conflict w c :
  cli_reachable w -> loads w c ->
  names_nonempty c /\
  forall issue_key task_file existing,
    dget issue_key (linked c) = Some existing -> existing ≠ task_file ->
    AddLink.add_link issue_key task_file w =
      (w, Return (AddLink.LinkFailed
                    (issue_conflict_error issue_key existing))).
Proof.
  intros Hcli Hload.
  destruct (cli_names_nonempty w Hcli) as (c1 & Hload1 & Hnames).
  rewrite (loads_unique _ _ _ Hload1 Hload) in Hnames. split; [done|].
  intros issue_key task_file existing Hex Hne.
  destruct (reachable_invariant links_known w) as (c2 & Hload2 & Hk).
  { split_and!; [apply NoDup_nil_2..|]. by intros k [? ?]. }
  { apply links_known_step. }
  { by apply cli_reachable_reachable. }
  rewrite (loads_unique _ _ _ Hload2 Hload) in Hk.
  destruct Hk as (_ & _ & Hknown).
  rewrite (add_link_run _ _ _ _ Hload).
  assert (Hmem : dmem issue_key (issues c) = true).
  { apply dmem_true, Hknown. by rewrite Hex. }
  rewrite Hmem, Hex. simpl.
  assert (Hne0 : existing ≠ "").
  { intros ->. apply Hnames. unfold dvalues.
    apply list_elem_of_fmap. exists (issue_key, ""). split; [done|].
    by apply dget_Some_elem. }
  unfold str_truthy. rewrite (bool_decide_eq_false_2 _ Hne0). simpl.
  rewrite bool_decide_eq_true_2; [done|congruence].
Qed.

End command_line.

Lemma cli_link_conflict_witness :
  exists c,
    loads (run_cli (CliLink "CCPRISM-1" (Some "a.md") false)
             one_issue_world) c /\
    AddLink.add_link "CCPRISM-1" "b.md"
      (run_cli (CliLink "CCPRISM-1" (Some "a.md") false) one_issue_world) =
      (run_cli (CliLink "CCPRISM-1" (Some "a.md") false) one_issue_world,
       Return (AddLink.LinkFailed
                 (issue_conflict_error "CCPRISM-1" "a.md"))).
Proof.
  eexists. split; [reflexivity|].
  refine (proj2 (cli_link_conflict _ _ _ _) "CCPRISM-1" "b.md" "a.md" _ _).
  - apply cli_step.
    apply (cli_step _ (CliAddIssue "CCPRISM-1" sample_fields
                         "2025-01-02T00:00:00Z")).
    apply cli_empty. reflexivity.
  - reflexivity.
  - reflexivity.
  - done.
Defined.

(** ** Linking and unlinking undo each other *)

Section round_trips.
Import AddLink.

Lemma remove_link_run w c issue_key :
  loads w c ->
  remove_link issue_key w =
    match dget issue_key (linked c) with
    | None => (w, Return (UnlinkFailed (not_linked_error issue_key)))
    | Some task_file =>
        ({| file := Stored {| project := project c; states := states c;
                              issues := issues c;
                              linked := dpop issue_key (linked c);
                              lastSync := lastSync c |};
            saves := S (saves w) |},
         Return (Unlinked issue_key task_file))
    end.
Proof.
  intros Hload. unfold remove_link, bind. rewrite Hload.
  by destruct (dget issue_key (linked c)).
Qed.

Lemma dpop_dset_fresh {K V} `{EqDecision K} (k : K) (v : V) d :
  dget k d = None -> dpop k (dset k v d) = d.
Proof.
  induction d as [|[k0 v0] d IH]; simpl.
  - intros _. by case_decide.
  - case_decide; [done|]. intros Hd. simpl.
    case_decide; [done|]. by rewrite IH.
Qed.

(** X9 (link, then unlink): when the issue had no link, a link that
    succeeds followed by the unlink of the same issue returns the task
    file and leaves exactly the document the link started from, after
    two saves. *)
Theorem link_unlink_round_trip w c issue_key task_file w1 text name :
  loads w c -> dget issue_key (linked c) = None ->
  add_link issue_key task_file w = (w1, Return (Linked text name)) ->
  exists w2,
    remove_link issue_key w1 = (w2, Return (Unlinked issue_key task_file)) /\
    loads w2 c /\ saves w2 = S (S (saves w)).
Proof.
  intros Hload Hnone. rewrite (add_link_run _ _ _ _ Hload), Hnone. simpl.
  destruct (dmem issue_key (issues c)); simpl; [|done].
  destruct (task_owner issue_key task_file (linked c)); [done|].
  intros [= <- _ _].
  erewrite remove_link_run by reflexivity. simpl.
  rewrite dget_dset_eq. eexists. split; [done|].
  rewrite (dpop_dset_fresh _ _ _ Hnone), cache_eta. by split.
Qed.

(** X10 (unlink, then link): in a world reached from the empty
    skeleton, the unlink of a linked issue followed by the link of the
    same issue to the task file the unlink returned succeeds, and gives
    back every lookup of [linked] (the restored link is now the last
    item) with the issues untouched. *)
Theorem unlink_link_round_trip w c issue_key task_file :
  reachable w -> loads w c ->
  dget issue_key (linked c) = Some task_file ->
  exists w1 w2 c2 text name,
    remove_link issue_key w = (w1, Return (Unlinked issue_key task_file)) /\
    add_link issue_key task_file w1 = (w2, Return (Linked text name)) /\
    loads w2 c2 /\ issues c2 = issues c /\
    (forall k, dget k (linked c2) = dget k (linked c)) /\
    linked c2 = dpop issue_key (linked c) ++ [(issue_key, task_file)].
Proof.
  intros Hreach Hload Hlinked.
  destruct (reachable_invariant links_known w) as (c1 & Hload1 & Hk).
  { split_and!; [apply NoDup_nil_2..|]. by intros k [? ?]. }
  { apply links_known_step. }
  { done. }
  rewrite (loads_unique _ _ _ Hload1 Hload) in Hk.
  destruct Hk as (_ & Hwf & Hknown).
  destruct (reachable_inv w Hreach) as (c3 & Hload3 & _ & Hinj).
  rewrite (loads_unique _ _ _ Hload3 Hload) in Hinj.
  rewrite (remove_link_run _ _ _ Hload), Hlinked.
  assert (Hmem : dmem issue_key (issues c) = true).
  { apply dmem_true, Hknown. by rewrite Hlinked. }
  assert (Hfree : task_owner issue_key task_file
                    (dpop issue_key (linked c)) = None).
  { apply task_owner_None. intros k Hin.
    destruct (decide (k = issue_key)) as [|Hne]; [done|].
    apply (Hinj k issue_key task_file); [|done].
    rewrite <- (dget_dpop_ne issue_key k) by done.
    apply elem_dget; [by apply dict_wf_dpop|done]. }
  eexists _, _, _, _, _. split; [reflexivity|].
  erewrite add_link_run by reflexivity. simpl.
  rewrite Hmem, (dget_dpop_eq _ _ Hwf), Hfree. simpl.
  split_and!; try reflexivity.
  - simpl. intros k. rewrite dget_dset.
    case_decide as Hk; [by subst|]. by apply dget_dpop_ne.
  - simpl. apply dset_fresh, dget_dpop_eq, Hwf.
Qed.

End round_trips.

Lemma link_unlink_round_trip_witness :
  exists w2,
    AddLink.remove_link "CCPRISM-1" one_link_world =
      (w2, Return (AddLink.Unlinked "CCPRISM-1" "a.md")) /\
    loads w2 {| project := []; states := [];
                issues := [("CCPRISM-1", sample_issue)];
                linked := []; lastSync := JNull |} /\
    saves w2 = S (S (saves one_issue_world)).
Proof.
  eapply (link_unlink_round_trip one_issue_world
            {| project := []; states := [];
               issues := [("CCPRISM-1", sample_issue)];
               linked := []; lastSync := JNull |} "CCPRISM-1" "a.md").
  - reflexivity.
  - reflexivity.
  - cbv. reflexivity.
Defined.

Lemma unlink_link_round_trip_witness :
  exists w1 w2 c2 text name,
    AddLink.remove_link "CCPRISM-1" one_link_world =
      (w1, Return (AddLink.Unlinked "CCPRISM-1" "a.md")) /\
    AddLink.add_link "CCPRISM-1" "a.md" w1 =
      (w2, Return (AddLink.Linked text name)) /\
    loads w2 c2 /\ issues c2 = [("CCPRISM-1", sample_issue)] /\
    (forall k, dget k (linked c2) = dget k [("CCPRISM-1", "a.md")]) /\
    linked c2 = [("CCPRISM-1", "a.md")].
Proof.
  apply (unlink_link_round_trip one_link_world
           {| project := []; states := [];
              issues := [("CCPRISM-1", sample_issue)];
              linked := [("CCPRISM-1", "a.md")]; lastSync := JNull |}).
  - apply reach_step, reach_step, reach_empty. reflexivity.
  - reflexivity.
  - reflexivity.
Defined.

(** ** What a sync reports *)

Section sync_report.
Import SyncCache SyncSpec.

Variables (ident : jval) (sbi : odict jval state_desc).

Lemma length_dset {K V} `{EqDecision K} (k : K) (v : V) d :
  length (dset k v d) =
    match dget k d with Some _ => length d | None => S (length d) end.
Proof.
  induction d as [|[k0 v0] d IH]; simpl; [done|].
  case_decide; simpl; [done|]. rewrite IH. by destruct (dget k d).
Qed.

Lemma delta_count l acc :
  length (acc_issues (foldl (issue_effect ident sbi) acc l))
    + length (acc_new acc) =
  length (acc_issues acc)
    + length (acc_new (foldl (issue_effect ident sbi) acc l)) /\
  length (acc_new (foldl (issue_effect ident sbi) acc l))
    + length (acc_updated (foldl (issue_effect ident sbi) acc l)) <=
  length (acc_new acc) + length (acc_updated acc) + length l.
Proof.
  revert acc. induction l as [|e l IH]; intros acc; simpl; [lia|].
  destruct (IH (issue_effect ident sbi acc e)) as [IH1 IH2].
  revert IH1 IH2. cbn [issue_effect acc_issues acc_new acc_updated].
  rewrite length_dset, !length_app.
  destruct (dget _ (acc_issues acc)) as [old|]; simpl.
  - destruct (bool_decide _); simpl; lia.
  - lia.
Qed.

Lemma delta_new_NoDup l acc :
  NoDup (acc_new acc) ->
  (forall k, k ∈ acc_new acc -> is_Some (dget k (acc_issues acc))) ->
  NoDup (acc_new (foldl (issue_effect ident sbi) acc l)).
Proof.
  revert acc. induction l as [|e l IH]; intros acc Hnd Hin; [done|].
  simpl foldl. apply IH; cbn [issue_effect acc_issues acc_new].
  - destruct (dget _ (acc_issues acc)) as [old|] eqn:Hget.
    + by rewrite app_nil_r.
    + apply NoDup_app. split_and!; [done| |apply NoDup_singleton].
      intros k Hk ->%list_elem_of_singleton.
      apply Hin in Hk. rewrite Hget in Hk. by destruct Hk.
  - intros k. rewrite elem_of_app, dget_dset.
    case_decide; [by eexists|]. intros [Hk|Hk]; [by apply Hin|].
    destruct (dget _ (acc_issues acc)); [by apply elem_of_nil in Hk|].
    by apply list_elem_of_singleton in Hk.
Qed.

End sync_report.

Section sync_report_theorems.
Import SyncCache SyncSpec.

(** X11 (sync counts): for a sync that returns, [issues_count] and
    [states_count] are the sizes of the saved [issues] and [states];
    the saved issues are the ones cached before plus the keys reported
    as new, each reported once, none of them cached before; and no entry
    of the snapshot is reported twice over: the two lists together are
    never longer than the snapshot's issues list. *)
Theorem sync_result_counts data now w c w1 r :
  loads w c -> sync_cache data now w = (w1, Return r) ->
  exists c1,
    loads w1 c1 /\
    issues_count r = length (issues c1) /\
    states_count r = length (states c1) /\
    issues_count r = length (issues c) + length (new r) /\
    NoDup (new r) /\
    (forall k, k ∈ new r -> dget k (issues c) = None) /\
    length (new r) + length (updated r) <= length (snapshot_issues data).
Proof.
  intros Hload Hsync. rewrite (sync_cache_run _ _ _ _ Hload) in Hsync.
  destruct (sync_doc data now c) as [[c1 r1]|] eqn:Hdoc; [|done].
  injection Hsync as <- <-.
  pose proof (sync_doc_Return _ _ _ _ _ Hdoc) as Hvalid.
  rewrite (sync_doc_valid _ _ _ Hvalid) in Hdoc. injection Hdoc as <- <-.
  eexists. split; [done|]. cbn [issues_count states_count new updated].
  unfold sync_acc.
  destruct (delta_count (sync_identifier data c) (sync_index data)
              (snapshot_issues data)
              {| acc_issues := issues c; acc_new := [];
                 acc_updated := [] |}) as [Hcount Hreports].
  rewrite issues_loop_writes in Hcount. simpl in Hcount, Hreports.
  split_and!; [done|done|simpl; lia| | |lia].
  - apply delta_new_NoDup; [apply NoDup_nil_2|].
    intros k Hk. by apply elem_of_nil in Hk.
  - intros k [Hk|[_ Hk]]%delta_new; [by apply elem_of_nil in Hk|done].
Qed.

End sync_report_theorems.

Lemma sync_result_counts_witness :
  exists c1 r,
    SyncCache.sync_cache sample_snapshot "T1" one_issue_world =
      ({| file := Stored c1; saves := 2 |}, Return r) /\
    SyncCache.issues_count r = 2 /\
    SyncCache.new r = ["CCPRISM-27"] /\
    SyncCache.issues_count r = 1 + length (SyncCache.new r).
Proof.
  eexists _, _. split; [reflexivity|]. split; [reflexivity|].
  split; [reflexivity|].
  destruct (sync_result_counts sample_snapshot "T1" one_issue_world
              {| project := []; states := [];
                 issues := [("CCPRISM-1", sample_issue)];
                 linked := []; lastSync := JNull |}
              _ _ eq_refl eq_refl) as (c1 & _ & _ & _ & Hn & _).
  exact Hn.
Defined.

(** ** State names and malformed states *)

Section sync_states_facts.
Import SyncCache SyncSpec.

Lemma index_states_get l sbi sid :
  Forall state_valid l ->
  dget sid (index_states sbi l) =
    match last (filter (fun st => state_id st = Some sid) l) with
    | Some st => Some st
    | None => dget sid sbi
    end.
Proof.
  induction l as [|st l IH] using rev_ind; [done|].
  intros [Hl Hst]%Forall_app. apply Forall_singleton in Hst as [[x Hx] _].
  unfold index_states in *. rewrite foldl_app, filter_app. simpl.
  rewrite dget_dset, Hx. simpl. rewrite filter_cons, filter_nil.
  case_decide as Hk.
  - subst x. rewrite decide_True by done. by rewrite last_snoc.
  - rewrite decide_False by congruence. rewrite app_nil_r. by apply IH.
Qed.

Lemma record_state_name l e :
  Forall state_valid l ->
  i_state (issue_record (index_states [] l) e) =
    JStr (state_name_of (issue_state_id e) l).
Proof.
  intros Hl. unfold issue_record, state_name_of. cbn [i_state]. f_equal.
  assert (Hget : get_state_name (issue_state_id e) (index_states [] l) =
                 match last (filter (fun st => state_id st
                                              = Some (issue_state_id e)) l)
                 with
                 | Some st => default "Unknown" (state_name st)
                 | None => "Unknown"
                 end).
  { unfold get_state_name. rewrite (index_states_get _ _ _ Hl).
    by destruct (last _). }
  rewrite <- Hget. by destruct (index_states [] l).
Qed.

(** X12 (state names of synced issues): for a sync that returns, with
    the snapshot's issue keys pairwise distinct, every entry is stored
    with the state id it carries and with the name of the last state of
    this snapshot that has that id; the name is [Unknown] when no state
    of the snapshot has the id, so a snapshot without states stores
    [Unknown] whatever the cache knew before. *)
Theorem synced_state_names data now w c w1 r e :
  loads w c -> sync_cache data now w = (w1, Return r) ->
  NoDup (entry_key (sync_identifier data c) <$> snapshot_issues data) ->
  e ∈ snapshot_issues data ->
  exists c1 i,
    loads w1 c1 /\
    dget (entry_key (sync_identifier data c) e) (issues c1) = Some i /\
    i_state_id i = issue_state_id e /\
    i_state i =
      JStr (state_name_of (issue_state_id e) (snapshot_states data)) /\
    (data_states data = None -> i_state i = JStr "Unknown").
Proof.
  intros Hload Hsync Hnd Hin.
  rewrite (sync_cache_run _ _ _ _ Hload) in Hsync.
  destruct (sync_doc data now c) as [[c1 r1]|] eqn:Hdoc; [|done].
  injection Hsync as <- <-.
  pose proof (sync_doc_Return _ _ _ _ _ Hdoc) as Hvalid.
  rewrite (sync_doc_valid _ _ _ Hvalid) in Hdoc. injection Hdoc as <- _.
  exists (synced data now c),
    (issue_record (sync_index data) e).
  split; [done|]. split.
  - unfold synced. cbn [issues]. rewrite <- (issues_loop_writes _ _ _
      {| acc_issues := issues c; acc_new := []; acc_updated := [] |}).
    by apply delta_stored.
  - split; [done|]. unfold sync_index.
    rewrite (record_state_name _ _ (proj1 Hvalid)). split; [done|].
    unfold snapshot_states. by intros ->.
Qed.

Lemma state_step_missing acc st field :
  state_first_missing st = Some field ->
  state_step acc st = Raise (KeyError field).
Proof.
  destruct acc as [sbi cs]. unfold state_first_missing, state_step.
  destruct (state_id st); [|by intros [= <-]].
  destruct (state_name st); [done|by intros [= <-]].
Qed.

Lemma states_loop_raise pre bad post acc field :
  Forall state_valid pre -> state_first_missing bad = Some field ->
  ofold state_step acc (pre ++ bad :: post) = Raise (KeyError field).
Proof.
  intros Hpre Hbad. revert acc.
  induction Hpre as [|st l Hst _ IH]; intros [sbi cs].
  - simpl app. by rewrite ofold_cons, (state_step_missing _ _ _ Hbad).
  - simpl app. rewrite ofold_cons, (state_step_valid _ _ _ Hst). apply IH.
Qed.

(** X13 (malformed states): when the snapshot's states list has an
    entry that lacks its id or its name, the entries before it being
    complete, [sync_cache] raises [KeyError] for the first key that
    entry lacks ([id] is read before [name]), whatever the project and
    the issues of the snapshot are; nothing is saved. *)
Theorem malformed_state_raises data now w c pre bad post field :
  loads w c ->
  data_states data = Some (pre ++ bad :: post) ->
  Forall state_valid pre ->
  state_first_missing bad = Some field ->
  sync_cache data now w = (w, Raise (KeyError field)) /\
  field ∈ ["id"; "name"].
Proof.
  intros Hload Hstates Hpre Hbad.
  rewrite (sync_cache_run _ _ _ _ Hload). split.
  - unfold sync_doc. rewrite Hstates.
    by rewrite (states_loop_raise _ _ _ _ _ Hpre Hbad).
  - unfold state_first_missing in Hbad. rewrite !elem_of_cons.
    destruct (state_id bad), (state_name bad); naive_solver.
Qed.


End sync_states_facts.

Lemma synced_state_names_witness :
  exists c1 i,
    loads (SyncCache.sync_cache sample_snapshot "T1" fresh_world).1 c1 /\
    dget "CCPRISM-27" (issues c1) = Some i /\
    i_state_id i = JStr "s2" /\
    i_state i = JStr "In Progress".
Proof.
  destruct (synced_state_names sample_snapshot "T1" fresh_world empty_cache
              _ _ (sample_entry 27 "2025-01-01T00:00:00Z")
              eq_refl eq_refl) as (c1 & i & Hl & Hi & Hid & Hst & _).
  - apply NoDup_singleton.
  - apply list_elem_of_here.
  - by exists c1, i.
Defined.

Lemma malformed_state_raises_witness :
  SyncCache.sync_cache malformed_states_snapshot "T1" one_link_world =
    (one_link_world, Raise (KeyError "name")).
Proof.
  apply (malformed_state_raises malformed_states_snapshot "T1"
           one_link_world
           {| project := []; states := [];
              issues := [("CCPRISM-1", sample_issue)];
              linked := [("CCPRISM-1", "a.md")]; lastSync := JNull |}
           [ {| SyncCache.state_id := Some (JStr "s1");
                SyncCache.state_name := Some "Todo";
                SyncCache.state_group := Some "unstarted" |} ]
           {| SyncCache.state_id := Some (JStr "s2");
              SyncCache.state_name := None;
              SyncCache.state_group := Some "started" |} [] "name").
  - reflexivity.
  - reflexivity.
  - apply Forall_singleton. split; by eexists.
  - reflexivity.
Defined.

(** ** The discovery report in reachable worlds *)

Lemma loads_file w c :
  loads w c -> file w = Stored c \/ file w = NoFile /\ c = empty_cache.
Proof.
  unfold loads, load_cache. destruct (file w); intros [= <-]; auto.
Qed.

Section discover_counts.
Import Discover DiscoverSpec.

Lemma find_unlinked_issues_length (issues : odict string issue)
    (linked : odict string string) (acc : odict string (jval * jval)) :
  dict_wf issues ->
  (forall k, k ∈ dkeys issues -> dget k acc = None) ->
  length (foldl (fun acc '(key, i) =>
                   if negb (dmem key linked)
                   then dset key (i_name i, i_state i) acc
                   else acc) acc issues) =
  length acc +
  length (filter (fun k => dget k linked = None) (dkeys issues)).
Proof.
  unfold dict_wf, dkeys. revert acc.
  induction issues as [|[k0 i0] issues IH]; intros acc Hwf Hfresh.
  { simpl. lia. }
  rewrite fmap_cons in Hwf, Hfresh |- *.
  apply NoDup_cons in Hwf as [Hk0 Hwf].
  simpl foldl. rewrite filter_cons. cbn [fst].
  unfold dmem. destruct (dget k0 linked) eqn:Hlinked; simpl.
  - rewrite ?decide_False by done. apply IH; [done|].
    intros k Hk. apply Hfresh. by apply list_elem_of_further.
  - rewrite ?decide_True by done. rewrite IH; [|done|].
    + rewrite length_dset, (Hfresh k0) by apply list_elem_of_here.
      simpl. lia.
    + intros k Hk. rewrite dget_dset_ne.
      * apply Hfresh. by apply list_elem_of_further.
      * intros ->. done.
Qed.

Lemma linked_keys_count (issues : odict string issue)
    (linked : odict string string) :
  dict_wf issues -> dict_wf linked ->
  (forall k, is_Some (dget k linked) -> is_Some (dget k issues)) ->
  length (filter (fun k => ¬ dget k linked = None) (dkeys issues)) =
  length linked.
Proof.
  intros Hwi Hwl Hknown.
  rewrite <- (length_fmap fst linked). apply Permutation_length.
  apply NoDup_Permutation; [by apply NoDup_filter|done|].
  intros k. rewrite list_elem_of_filter. split.
  - intros [Hk _]. apply dec_stable. intros Hnot. apply Hk.
    by apply dget_None.
  - intros Hk. assert (Hsome : is_Some (dget k linked)).
    { destruct (dget k linked) eqn:Hget; [by eexists|].
      by apply dget_None in Hget. }
    split.
    + intros Hnone. rewrite Hnone in Hsome. by destruct Hsome.
    + apply Hknown in Hsome as [i Hi].
      apply dget_Some_elem in Hi.
      apply list_elem_of_fmap. by exists (k, i).
Qed.

Lemma unlinked_task_entry_length td linked name :
  length (unlinked_task_entry td linked name) <= 1.
Proof.
  unfold unlinked_task_entry.
  repeat (case_match; simpl; try lia).
Qed.

Lemma find_unlinked_tasks_length td linked :
  length (find_unlinked_tasks td linked) <= length (get_task_files td).
Proof.
  unfold find_unlinked_tasks.
  induction (get_task_files td) as [|name l IH]; simpl; [lia|].
  rewrite length_app.
  pose proof (unlinked_task_entry_length td linked name). lia.
Qed.

Lemma mismatch_loop_length td issues l acc ms :
  ofold (mismatch_step td issues) acc l = Return ms ->
  length ms <= length acc + length l.
Proof.
  revert acc. induction l as [|[k t] l IH]; intros acc.
  - simpl. intros [= <-]. lia.
  - rewrite ofold_cons.
    destruct (mismatch_step td issues acc (k, t)) as [acc1|] eqn:Hstep;
      simpl; [|done].
    intros Hrest. apply IH in Hrest. simpl.
    assert (length acc1 <= S (length acc)); [|lia].
    revert Hstep. unfold mismatch_step.
    repeat (case_match; simpl; try done); intros [= <-];
      rewrite ?length_app; simpl; lia.
Qed.

(** X15 (the summary of the report): [discover] never changes the
    world.  In a world reached from the empty skeleton its summary
    splits the cached issues into the linked and the unlinked ones:
    [unlinked_issues + total_linked = total_issues]; and there are at
    most as many unlinked tasks as enumerated files and at most as many
    mismatches as links. *)
Theorem discover_summary_partition cache_path td check_status w r :
  reachable w ->
  (discover cache_path td check_status w).2 = Return (Found r) ->
  (discover cache_path td check_status w).1 = w /\
  n_unlinked_issues (report_summary r) + total_linked (report_summary r)
    = total_issues (report_summary r) /\
  n_unlinked_tasks (report_summary r) <= length (get_task_files td) /\
  n_mismatches (report_summary r) <= total_linked (report_summary r).
Proof.
  intros Hreach.
  destruct (reachable_invariant links_known w) as (c & Hload & Hk);
    [|apply links_known_step|done|].
  { split_and!; [apply NoDup_nil_2..|]. by intros k [? ?]. }
  destruct Hk as (Hwi & Hwl & Hknown).
  destruct (loads_file _ _ Hload) as [Hfile|[Hfile _]].
  2: { unfold discover, bind, Discover.load_cache. by rewrite Hfile. }
  - rewrite (discover_run _ _ _ _ _ Hfile).
    destruct (if check_status then _ else _) as [ms|] eqn:Hms;
      simpl; [|done].
    intros [= <-]. simpl. split_and!; [done| | |].
    + unfold find_unlinked_issues.
      rewrite find_unlinked_issues_length; [|done|done]. simpl.
      pose proof (linked_keys_count _ _ Hwi Hwl Hknown) as Hlinked.
      pose proof (Permutation_length
                    (filter_app_complement
                       (fun k => dget k (linked c) = None)
                       (dkeys (issues c)))) as Hsplit.
      rewrite length_app in Hsplit. unfold dkeys in Hlinked, Hsplit |- *.
      rewrite length_fmap in Hsplit. lia.
    + apply find_unlinked_tasks_length.
    + destruct check_status.
      * by apply mismatch_loop_length in Hms.
      * injection Hms as <-. simpl. lia.
Qed.

Lemma find_unlinked_issues_skip (issues : odict string issue)
    (linked : odict string string) (acc : odict string (jval * jval))
    (k : string) :
  dmem k linked = true -> dget k acc = None ->
  dget k (foldl (fun acc '(key, i) =>
                   if negb (dmem key linked)
                   then dset key (i_name i, i_state i) acc
                   else acc) acc issues) = None.
Proof.
  intros Hk. revert acc.
  induction issues as [|[k0 i0] issues IH]; intros acc Hacc; [done|].
  simpl foldl. apply IH.
  destruct (negb (dmem k0 linked)) eqn:Hk0; [|done].
  rewrite dget_dset_ne; [done|]. intros ->.
  rewrite Hk in Hk0. done.
Qed.

(** X16 (a link, then the report): after a link that succeeds, the
    report of [discover] no longer lists the issue among the unlinked
    issues, lists no unlinked task under the linked file name, and
    reports no file as claiming the issue. *)
Theorem link_then_discover w c issue_key task_file w1 text name
    cache_path td check_status r :
  loads w c ->
  AddLink.add_link issue_key task_file w =
    (w1, Return (AddLink.Linked text name)) ->
  (discover cache_path td check_status w1).2 = Return (Found r) ->
  dget issue_key (unlinked_issues r) = None /\
  forall u, u ∈ unlinked_tasks r ->
    entry_file u ≠ task_file /\
    forall file_name status, u ≠ Claiming file_name issue_key status.
Proof.
  intros Hload. rewrite (add_link_run _ _ _ _ Hload).
  destruct (negb _); [done|].
  destruct (_ && _); [done|].
  destruct (AddLink.task_owner _ _ _); [done|].
  intros [= <- _ _].
  erewrite discover_run by reflexivity.
  destruct (if check_status then _ else _) as [ms|]; simpl; [|done].
  intros [= <-]. simpl.
  assert (Hmem : dmem issue_key (dset issue_key task_file (linked c))
                 = true).
  { unfold dmem. by rewrite dget_dset_eq. }
  split; [by apply find_unlinked_issues_skip|].
  intros u (file_name & _ & Hu)%in_unlinked_tasks. split.
  - apply unlinked_task_entry_file in Hu as [-> Hfree].
    intros ->. apply Hfree. unfold dvalues.
    apply list_elem_of_fmap. exists (issue_key, task_file).
    split; [done|]. apply dget_Some_elem, dget_dset_eq.
  - intros file_name' status ->. revert Hu. unfold unlinked_task_entry.
    repeat (case_match; simpl; try by intros ?%elem_of_nil);
      intros Hu%list_elem_of_singleton; try done.
    injection Hu as -> -> ->.
    match goal with H : _ && _ = true |- _ =>
      apply andb_true_iff in H as [_ H] end.
    by rewrite Hmem in *.
Qed.

End discover_counts.

Lemma discover_summary_partition_witness :
  exists r,
    (Discover.discover ".claude/plane-sync.json"
       (DiscoverSpec.single_task None) true one_link_world).2 =
      Return (Discover.Found r) /\
    Discover.n_unlinked_issues (Discover.report_summary r)
      + Discover.total_linked (Discover.report_summary r)
    = Discover.total_issues (Discover.report_summary r).
Proof.
  eexists. split; [reflexivity|].
  refine (proj1 (proj2 (discover_summary_partition
                          ".claude/plane-sync.json"
                          (DiscoverSpec.single_task None) true
                          one_link_world _ _ _))).
  - apply reach_step, reach_step, reach_empty. reflexivity.
  - reflexivity.
Defined.

Lemma link_then_discover_witness :
  exists r,
    (Discover.discover ".claude/plane-sync.json"
       (DiscoverSpec.single_task (Some [("plane_issue", "CCPRISM-1")]))
       false one_link_world).2 = Return (Discover.Found r) /\
    dget "CCPRISM-1" (Discover.unlinked_issues r) = None /\
    forall u, u ∈ Discover.unlinked_tasks r ->
      DiscoverSpec.entry_file u ≠ "a.md" /\
      forall file_name status,
        u ≠ Discover.Claiming file_name "CCPRISM-1" status.
Proof.
  eexists. split; [reflexivity|].
  apply (link_then_discover one_issue_world
           {| project := []; states := [];
              issues := [("CCPRISM-1", sample_issue)];
              linked := []; lastSync := JNull |}
           "CCPRISM-1" "a.md" one_link_world
           "CCPRISM-1 ↔ a.md" (JStr "First issue")
           ".claude/plane-sync.json"
           (DiscoverSpec.single_task (Some [("plane_issue", "CCPRISM-1")]))
           false).
  - reflexivity.
  - reflexivity.
  - reflexivity.
Defined.

(** ** The status check on a state that is no string *)

Section status_check_failure.
Import Discover DiscoverSpec.

Lemma ofold_app {A S} (body : S -> A -> outcome S) s l1 l2 :
  ofold body s (l1 ++ l2) =
    obind (ofold body s l1) (fun s' => ofold body s' l2).
Proof.
  revert s. induction l1 as [|a l1 IH]; intros s; [done|].
  simpl. destruct (body s a); simpl; [apply IH|done].
Qed.

(** X17 (status check and null states): with [check_status], when a
    link whose task file exists and has frontmatter belongs to an issue
    whose stored state is not a string (an issue added by
    [add_issue.py] without [--state] has the state null), and the links
    before it have string states, [discover] raises [AttributeError]
    from [actual_state.lower()] and returns no report; without
    [check_status] the same call returns its report. *)
Theorem null_state_status_check cache_path td w c pre issue_key task_file
    post fm :
  file w = Stored c ->
  linked c = pre ++ (issue_key, task_file) :: post ->
  (forall k t,
     (k, t) ∈ pre -> exists actual, stored_state c k = JStr actual) ->
  task_exists td task_file = true ->
  has_frontmatter td task_file fm ->
  (forall actual, stored_state c issue_key ≠ JStr actual) ->
  discover cache_path td true w = (w, Raise (AttributeError "lower")) /\
  exists r, discover cache_path td false w = (w, Return (Found r)).
Proof.
  intros Hfile Hlinked Hpre Hexists Hfm Hstate.
  rewrite !(discover_run _ _ _ _ _ Hfile). split; [|by eexists].
  rewrite Hlinked, ofold_app, (mismatch_loop _ _ _ _ Hpre).
  cbn [obind]. rewrite ofold_cons.
  assert (Hstep : forall acc,
            mismatch_step td (issues c) acc (issue_key, task_file)
            = Raise (AttributeError "lower")).
  { intros acc. unfold mismatch_step. rewrite Hexists. simpl.
    assert (frontmatter_truthy (parse_task_frontmatter td task_file) = true)
      as -> by (apply frontmatter_truthy_spec; by exists fm).
    simpl. unfold stored_state in Hstate.
    destruct (dget issue_key (issues c)) as [i|].
    - destruct (i_state i) as [|actual|]; [done| |done].
      by destruct (Hstate actual).
    - by destruct (Hstate ""). }
  by rewrite Hstep.
Qed.

End status_check_failure.

Lemma null_state_status_check_witness :
  Discover.discover ".claude/plane-sync.json"
    (DiscoverSpec.single_task (Some [("status", "pending")])) true
    stateless_link_world =
    (stateless_link_world, Raise (AttributeError "lower")) /\
  exists r,
    Discover.discover ".claude/plane-sync.json"
      (DiscoverSpec.single_task (Some [("status", "pending")])) false
      stateless_link_world = (stateless_link_world, Return (Discover.Found r)).
Proof.
  eapply (null_state_status_check _ _ stateless_link_world _ []
            "CCPRISM-2" "a.md" [] [("status", "pending")]).
  - reflexivity.
  - reflexivity.
  - intros k t Hin. by apply elem_of_nil in Hin.
  - reflexivity.
  - by split.
  - by intros actual.
Defined.

(** ** Strings *)

Section string_facts.

Lemma app_String c s t : String c s +:+ t = String c (s +:+ t).
Proof. done. Qed.

Lemma app_empty_r s : s +:+ "" = s.
Proof. induction s as [|c s IH]; [done|]. by rewrite app_String, IH. Qed.

Lemma string_app_assoc s t u : (s +:+ t) +:+ u = s +:+ t +:+ u.
Proof.
  induction s as [|c s IH]; [done|]. by rewrite !app_String, IH.
Qed.

Lemma app_same_length a b x y :
  a +:+ x = b +:+ y -> String.length a = String.length b -> a = b.
Proof.
  revert b. induction a as [|c a IH]; intros [|c' b]; try done.
  rewrite !app_String. intros [= -> Hrest] [= Hlen].
  f_equal. by apply IH.
Qed.

End string_facts.

(** ** The frontmatter block *)

Section frontmatter_block.
Import Frontmatter FrontmatterSpec.

Lemma strip_prefix_Some p s t : strip_prefix p s = Some t <-> s = p +:+ t.
Proof.
  revert s. induction p as [|a p IH]; intros s.
  - simpl. split; [by intros [= ->]|by intros ->].
  - destruct s as [|b s]; [done|]. rewrite app_String. simpl.
    destruct (Ascii.eqb_spec a b) as [->|Hne].
    + rewrite IH. split; [by intros ->|by intros [= ->]].
    + split; [done|]. intros [= ? _]. by destruct Hne.
Qed.

Lemma lazy_group_eq s :
  lazy_group s =
    match strip_prefix closing s with
    | Some _ => Some ""
    | None =>
        match s with
        | EmptyString => None
        | String c s' => String c <$> lazy_group s'
        end
    end.
Proof. by destruct s. Qed.

Lemma lazy_group_sound s group :
  lazy_group s = Some group -> exists tail, s = group +:+ closing +:+ tail.
Proof.
  revert group. induction s as [|c s IH]; intros group;
    rewrite lazy_group_eq.
  - done.
  - destruct (strip_prefix closing (String c s)) as [tail|] eqn:Hclose.
    + intros [= <-]. exists tail.
      exact (proj1 (strip_prefix_Some _ _ _) Hclose).
    + destruct (lazy_group s) as [g|]; [|done]. intros [= <-].
      destruct (IH g eq_refl) as [tail ->]. by exists tail.
Qed.

Lemma lazy_group_least s group' tail' :
  s = group' +:+ closing +:+ tail' ->
  exists group,
    lazy_group s = Some group /\
    String.length group <= String.length group'.
Proof.
  revert s. induction group' as [|c g IH]; intros s ->;
    rewrite lazy_group_eq.
  - assert (strip_prefix closing (closing +:+ tail') = Some tail') as Hc
      by by apply strip_prefix_Some.
    change ("" +:+ closing +:+ tail') with (closing +:+ tail').
    rewrite Hc. exists "". split; [done|]. simpl. lia.
  - destruct (strip_prefix closing _) as [tail|].
    + exists "". split; [done|]. simpl. lia.
    + rewrite app_String.
      destruct (IH _ eq_refl) as (group & -> & Hlen).
      exists (String c group). split; [done|]. simpl. lia.
Qed.

(** X18 (the frontmatter block): the parser returns [None] exactly for
    a text that does not start with the opening marker line followed,
    after any text, by a newline and three dashes; otherwise the group
    it reads is the shortest text between the opening line and such a
    closing marker, so that a line that merely begins with three dashes
    ends the block. *)
Theorem frontmatter_block content :
  (parse_task_frontmatter content = None <->
   forall group tail, content ≠ opening +:+ group +:+ closing +:+ tail) /\
  forall group,
    frontmatter_match content = Some group <->
    (exists tail, content = opening +:+ group +:+ closing +:+ tail) /\
    forall group' tail',
      content = opening +:+ group' +:+ closing +:+ tail' ->
      String.length group <= String.length group'.
Proof.
  assert (Hsome : forall group,
    frontmatter_match content = Some group <->
    (exists tail, content = opening +:+ group +:+ closing +:+ tail) /\
    forall group' tail',
      content = opening +:+ group' +:+ closing +:+ tail' ->
      String.length group <= String.length group').
  { intros group. unfold frontmatter_match. split.
    - destruct (strip_prefix opening content) as [rest|] eqn:Hopen; [|done].
      apply strip_prefix_Some in Hopen as ->. intros Hgroup. split.
      + destruct (lazy_group_sound _ _ Hgroup) as [tail ->]. by exists tail.
      + intros group' tail' Heq. apply (inj (String.app opening)) in Heq.
        destruct (lazy_group_least _ _ _ Heq) as (g & Hg & Hlen).
        rewrite Hgroup in Hg. by injection Hg as <-.
    - intros [[tail ->] Hleast].
      assert (strip_prefix opening
                (opening +:+ group +:+ closing +:+ tail)
              = Some (group +:+ closing +:+ tail)) as ->
        by by apply strip_prefix_Some.
      destruct (lazy_group_least _ group tail eq_refl) as (g & Hg & Hlen).
      rewrite Hg. f_equal.
      destruct (lazy_group_sound _ _ Hg) as [tail0 Heq].
      symmetry. apply (app_same_length _ _ _ _ Heq).
      apply Nat.le_antisymm; [|done].
      apply (Hleast g tail0). by rewrite <- Heq. }
  split; [|done].
  unfold parse_task_frontmatter.
  destruct (frontmatter_match content) as [group|] eqn:Hmatch.
  - split; [done|]. intros Hnone.
    destruct (proj1 (Hsome group) eq_refl) as [[tail Heq] _].
    by destruct (Hnone group tail).
  - split; [|done]. intros _ group tail ->.
    destruct (lazy_group_least (group +:+ closing +:+ tail) group tail
                eq_refl) as (g & Hg & _).
    unfold frontmatter_match in Hmatch.
    assert (strip_prefix opening
              (opening +:+ group +:+ closing +:+ tail)
            = Some (group +:+ closing +:+ tail)) as Hopen
      by by apply strip_prefix_Some.
    rewrite Hopen, Hg in Hmatch. done.
Qed.

End frontmatter_block.

(** ** The parsed mapping *)

Section frontmatter_entries.
Import Frontmatter FrontmatterSpec.

Lemma occurs_app c s t : occurs c (s +:+ t) = occurs c s || occurs c t.
Proof.
  induction s as [|a s IH]; [done|].
  rewrite app_String. simpl. by rewrite IH, orb_assoc.
Qed.

Lemma occurs_lstrip c s : occurs c (lstrip s) = true -> occurs c s = true.
Proof.
  induction s as [|a s IH]; simpl; [done|].
  destruct (is_space a); [|done]. intros ->%IH. apply orb_true_r.
Qed.

Lemma occurs_rstrip c s : occurs c (rstrip s) = true -> occurs c s = true.
Proof.
  induction s as [|a s IH]; simpl; [done|].
  destruct (rstrip s) as [|b r].
  - destruct (is_space a); simpl; [done|]. rewrite orb_false_r.
    intros ->. done.
  - simpl in *. intros [->|Hr]%orb_true_iff; [done|].
    rewrite IH by done. apply orb_true_r.
Qed.

Lemma occurs_strip c s : occurs c s = false -> occurs c (strip s) = false.
Proof.
  intros Hs. destruct (occurs c (strip s)) eqn:Hstrip; [|done].
  apply occurs_rstrip, occurs_lstrip in Hstrip. congruence.
Qed.

Lemma rstrip_idemp s : rstrip (rstrip s) = rstrip s.
Proof.
  induction s as [|a s IH]; simpl; [done|].
  destruct (rstrip s) as [|b r] eqn:Hr.
  - destruct (is_space a) eqn:Ha; simpl; [done|]. by rewrite Ha.
  - simpl in *. by rewrite IH.
Qed.

Lemma lstrip_head s :
  match lstrip s with
  | EmptyString => True
  | String c _ => is_space c = false
  end.
Proof.
  induction s as [|a s IH]; simpl; [done|].
  by destruct (is_space a) eqn:Ha.
Qed.

Lemma lstrip_rstrip s :
  match s with
  | EmptyString => True
  | String c _ => is_space c = false
  end ->
  lstrip (rstrip s) = rstrip s.
Proof.
  destruct s as [|a s]; [done|]. intros Ha. simpl.
  destruct (rstrip s); rewrite ?Ha; simpl; by rewrite Ha.
Qed.

Lemma strip_idemp s : strip (strip s) = strip s.
Proof.
  unfold strip. rewrite (lstrip_rstrip (lstrip s)) by apply lstrip_head.
  apply rstrip_idemp.
Qed.

Lemma split_once_Some sep s before after :
  split_once sep s = Some (before, after) ->
  s = before +:+ String sep after /\ occurs sep before = false.
Proof.
  revert before. induction s as [|a s IH]; intros before; simpl; [done|].
  destruct (Ascii.eqb_spec a sep) as [->|Hne].
  - by intros [= <- <-].
  - destruct (split_once sep s) as [[b t]|]; [|done]. intros [= <- <-].
    destruct (IH b eq_refl) as [-> Hb]. split; [done|].
    simpl. rewrite Hb. by apply Ascii.eqb_neq in Hne as ->.
Qed.

Lemma split_pieces sep s piece :
  piece ∈ split sep s -> occurs sep piece = false.
Proof.
  revert piece. induction s as [|a s IH]; intros piece; simpl.
  - by intros ->%list_elem_of_singleton.
  - destruct (Ascii.eqb_spec a sep) as [->|Hne].
    + intros [->|Hin]%elem_of_cons; [done|by apply IH].
    + destruct (split sep s) as [|p ps].
      * intros ->%list_elem_of_singleton. simpl.
        by apply Ascii.eqb_neq in Hne as ->.
      * intros [->|Hin]%elem_of_cons.
        -- simpl. apply Ascii.eqb_neq in Hne as ->.
           apply IH, list_elem_of_here.
        -- by apply IH, list_elem_of_further.
Qed.

Lemma dset_elem {K V} `{EqDecision K} (k k' : K) (v v' : V) d :
  (k', v') ∈ dset k v d -> (k', v') = (k, v) \/ (k', v') ∈ d.
Proof.
  induction d as [|[k0 v0] d IH]; simpl.
  - intros ?%list_elem_of_singleton. by left.
  - case_decide; subst; rewrite !elem_of_cons; [tauto|].
    intros [?|Hin]; [tauto|]. destruct (IH Hin); tauto.
Qed.

(** X19 (parsed entries): in the mapping the parser returns every key
    is held once; keys and values carry no white space at either end;
    a key has no colon; and no key or value has a newline. *)
Theorem parsed_entries content fm :
  parse_task_frontmatter content = Some fm ->
  dict_wf fm /\
  forall k v,
    (k, v) ∈ fm ->
    strip k = k /\ strip v = v /\
    occurs colon k = false /\ occurs newline k = false /\
    occurs newline v = false.
Proof.
  unfold parse_task_frontmatter.
  destruct (frontmatter_match content) as [group|]; [|done].
  intros [= <-].
  pose proof (split_pieces newline group) as Hlines.
  set (P := fun (d : odict string string) =>
    dict_wf d /\
    forall k v,
      (k, v) ∈ d ->
      strip k = k /\ strip v = v /\
      occurs colon k = false /\ occurs newline k = false /\
      occurs newline v = false).
  assert (Hfold : forall lines acc,
    (forall line, line ∈ lines -> occurs newline line = false) ->
    P acc -> P (foldl parse_line acc lines)); [|apply Hfold; [done|]].
  - induction lines as [|line lines IH]; intros acc Hnl Hacc; [done|].
    simpl. apply IH.
    { intros l Hl. by apply Hnl, list_elem_of_further. }
    unfold parse_line.
    destruct (split_once colon line) as [[key value]|] eqn:Hsplit; [|done].
    apply split_once_Some in Hsplit as [Hline Hkey].
    assert (Hno : occurs newline line = false)
      by apply Hnl, list_elem_of_here.
    rewrite Hline, occurs_app in Hno. simpl in Hno.
    apply orb_false_iff in Hno as [Hk Hv].
    destruct Hacc as [Hwf Hall]. split; [by apply dict_wf_dset|].
    intros k v [[= -> ->]|Hin]%dset_elem; [|by apply Hall].
    split_and!; [apply strip_idemp..| | |]; by apply occurs_strip.
  - split; [apply NoDup_nil_2|]. intros k v Hin.
    by apply elem_of_nil in Hin.
Qed.

End frontmatter_entries.

(** ** Writing a mapping and reading it back *)

Section frontmatter_round_trip.
Import Frontmatter FrontmatterSpec.

Lemma split_once_app sep before after :
  occurs sep before = false ->
  split_once sep (before +:+ String sep after) = Some (before, after).
Proof.
  induction before as [|a s IH]; simpl.
  - intros _. change ("" +:+ String sep after) with (String sep after).
    simpl. by rewrite Ascii.eqb_refl.
  - intros [Ha Hs]%orb_false_iff. rewrite ?app_String. simpl.
    by rewrite Ha, (IH Hs).
Qed.

Lemma split_plain sep s : occurs sep s = false -> split sep s = [s].
Proof.
  induction s as [|a s IH]; simpl; [done|].
  intros [Ha Hs]%orb_false_iff. by rewrite Ha, (IH Hs).
Qed.

Lemma split_app sep line rest :
  occurs sep line = false ->
  split sep (line +:+ String sep rest) = line :: split sep rest.
Proof.
  induction line as [|a s IH]; simpl.
  - intros _. change ("" +:+ String sep rest) with (String sep rest).
    simpl. by rewrite Ascii.eqb_refl.
  - intros [Ha Hs]%orb_false_iff. rewrite ?app_String. simpl.
    by rewrite Ha, (IH Hs).
Qed.

Lemma split_join_lines line lines :
  Forall (fun l => occurs newline l = false) (line :: lines) ->
  split newline (join_lines (line :: lines)) = line :: lines.
Proof.
  revert line. induction lines as [|l2 lines IH]; intros line Hall.
  - apply Forall_cons in Hall as [Hline _]. simpl. by apply split_plain.
  - apply Forall_cons in Hall as [Hline Hall].
    change (join_lines (line :: l2 :: lines))
      with (line +:+ String newline (join_lines (l2 :: lines))).
    by rewrite (split_app _ _ _ Hline), (IH _ Hall).
Qed.

Lemma strip_prefix_app_None p line c rest :
  strip_prefix p line = None -> occurs c p = false ->
  strip_prefix p (line +:+ String c rest) = None.
Proof.
  revert line. induction p as [|a p IH]; intros line; [done|].
  simpl occurs. intros Hline [Ha Hp]%orb_false_iff.
  destruct line as [|b line].
  - change ("" +:+ String c rest) with (String c rest). simpl.
    by rewrite Ha.
  - rewrite app_String. simpl in *.
    destruct (Ascii.eqb a b); [by apply IH|done].
Qed.

Lemma strip_prefix_closing a s :
  strip_prefix closing (String a s) =
    if Ascii.eqb newline a then strip_prefix "---" s else None.
Proof. done. Qed.

Lemma lazy_group_line line rest :
  occurs newline line = false ->
  lazy_group (line +:+ rest) = (fun g => line +:+ g) <$> lazy_group rest.
Proof.
  induction line as [|a s IH]; intros Hline.
  - change ("" +:+ rest) with rest. by destruct (lazy_group rest).
  - simpl in Hline. apply orb_false_iff in Hline as [Ha Hs].
    rewrite app_String, lazy_group_eq.
    assert (strip_prefix closing (String a (s +:+ rest)) = None) as ->.
    { by rewrite strip_prefix_closing, Ascii.eqb_sym, Ha. }
    rewrite (IH Hs). by destruct (lazy_group rest).
Qed.

Lemma lazy_group_newline rest :
  strip_prefix "---" rest = None ->
  lazy_group (String newline rest) = String newline <$> lazy_group rest.
Proof.
  intros Hrest. rewrite lazy_group_eq.
  assert (strip_prefix closing (String newline rest) = None) as ->; [|done].
  by rewrite strip_prefix_closing, Ascii.eqb_refl.
Qed.

Lemma join_lines_head line lines tail :
  exists rest,
    join_lines (line :: lines) +:+ closing +:+ tail
    = line +:+ String newline rest.
Proof.
  destruct lines as [|l2 lines].
  - by exists ("---" +:+ tail).
  - exists (join_lines (l2 :: lines) +:+ closing +:+ tail).
    change (join_lines (line :: l2 :: lines))
      with (line +:+ String newline (join_lines (l2 :: lines))).
    by rewrite string_app_assoc.
Qed.

Lemma lazy_group_lines lines tail :
  Forall line_ok lines ->
  lazy_group (join_lines lines +:+ closing +:+ tail)
  = Some (join_lines lines).
Proof.
  intros Hall. induction Hall as [|line lines [Hnl _] Hrest IH].
  - change (join_lines [] +:+ closing +:+ tail) with (closing +:+ tail).
    rewrite lazy_group_eq.
    by assert (strip_prefix closing (closing +:+ tail) = Some tail) as ->
      by by apply strip_prefix_Some.
  - destruct Hrest as [|l2 lines [Hnl2 Hdash2] Hrest].
    + simpl join_lines. rewrite (lazy_group_line _ _ Hnl), lazy_group_eq.
      assert (strip_prefix closing (closing +:+ tail) = Some tail) as ->
        by by apply strip_prefix_Some.
      simpl. by rewrite app_empty_r.
    + change (join_lines (line :: l2 :: lines))
        with (line +:+ String newline (join_lines (l2 :: lines))).
      rewrite string_app_assoc, (lazy_group_line _ _ Hnl), app_String.
      rewrite lazy_group_newline.
      * rewrite IH. done.
      * destruct (join_lines_head l2 lines tail) as [rest ->].
        by apply strip_prefix_app_None.
Qed.

Lemma parse_render_line acc item :
  clean_item item ->
  parse_line acc (render_line item) = dset item.1 item.2 acc.
Proof.
  destruct item as [k v]. unfold clean_item. cbn [fst snd].
  intros [(Hk & Hcolon & _ & _) (Hv & _)].
  unfold parse_line, render_line. cbn [fst snd].
  change (k +:+ ": " +:+ v) with (k +:+ String colon (" " +:+ v)).
  rewrite (split_once_app _ _ _ Hcolon), Hk.
  by assert (strip (" " +:+ v) = v) as -> by exact Hv.
Qed.

Lemma render_line_ok item : clean_item item -> line_ok (render_line item).
Proof.
  destruct item as [k v]. unfold clean_item. cbn [fst snd].
  intros [(_ & _ & Hnl & Hdash) (_ & Hvnl)].
  unfold render_line, line_ok. cbn [fst snd]. split.
  - rewrite occurs_app, Hnl.
    change (": " +:+ v) with (String colon (String " " v)).
    exact Hvnl.
  - change (k +:+ ": " +:+ v) with (k +:+ String colon (" " +:+ v)).
    by apply strip_prefix_app_None.
Qed.

Lemma dict_of_wf (acc d : odict string string) :
  NoDup (dkeys acc ++ dkeys d) ->
  foldl (fun acc item => dset item.1 item.2 acc) acc d = acc ++ d.
Proof.
  unfold dkeys. revert acc.
  induction d as [|[k v] d IH]; intros acc Hnd.
  - by rewrite app_nil_r.
  - simpl. rewrite fmap_cons in Hnd.
    assert (Hfresh : dget k acc = None).
    { apply dget_None. unfold dkeys. intros Hin.
      apply NoDup_app in Hnd as (_ & Hdisj & _).
      apply (Hdisj k Hin), list_elem_of_here. }
    rewrite (dset_fresh _ _ _ Hfresh), IH.
    + by rewrite <- app_assoc.
    + rewrite fmap_app. simpl. rewrite <- app_assoc. done.
Qed.

(** X20 (a mapping written and read back): a task file written from
    clean items (keys and values without surrounding white space or
    newline, keys without colon and not beginning with three dashes) as
    a frontmatter block of [key: value] lines parses back to the mapping
    those items build, whatever body follows; when no key repeats, that
    is the items themselves, in their order. *)
Theorem render_parse_round_trip d body :
  Forall clean_item d ->
  parse_task_frontmatter (render d body) = Some (dict_of d) /\
  (dict_wf d -> parse_task_frontmatter (render d body) = Some d).
Proof.
  intros Hclean.
  assert (Hparse : parse_task_frontmatter (render d body)
                   = Some (dict_of d)).
  { unfold parse_task_frontmatter, frontmatter_match, render.
    assert (strip_prefix opening
              (opening +:+ join_lines (render_line <$> d)
                 +:+ closing +:+ body)
            = Some (join_lines (render_line <$> d) +:+ closing +:+ body))
      as -> by by apply strip_prefix_Some.
    rewrite lazy_group_lines.
    2: { apply Forall_fmap. eapply Forall_impl; [done|].
         intros item. apply render_line_ok. }
    f_equal. unfold dict_of.
    destruct d as [|item d]; [done|].
    rewrite fmap_cons, split_join_lines.
    2: { rewrite <- fmap_cons. apply Forall_fmap.
         eapply Forall_impl; [done|].
         intros i Hi. by apply render_line_ok. }
    rewrite <- fmap_cons. generalize (item :: d) Hclean.
    generalize (@nil (string * string)).
    intros acc items Hitems. revert acc.
    induction Hitems as [|i items Hi _ IH]; intros acc; [done|].
    rewrite fmap_cons. simpl. rewrite (parse_render_line _ _ Hi).
    apply IH. }
  split; [done|]. intros Hwf. rewrite Hparse. f_equal.
  unfold dict_of. by rewrite dict_of_wf.
Qed.

End frontmatter_round_trip.

Lemma parsed_entries_witness :
  Frontmatter.parse_task_frontmatter FrontmatterSpec.untidy_task_text
    = Some [("status", "done"); ("url", "http://x")] /\
  dict_wf [("status", "done"); ("url", "http://x")] /\
  forall k v,
    (k, v) ∈ [("status", "done"); ("url", "http://x")] ->
    Frontmatter.strip k = k /\ Frontmatter.strip v = v /\
    FrontmatterSpec.occurs Frontmatter.colon k = false /\
    FrontmatterSpec.occurs Frontmatter.newline k = false /\
    FrontmatterSpec.occurs Frontmatter.newline v = false.
Proof.
  split; [reflexivity|].
  apply (parsed_entries FrontmatterSpec.untidy_task_text). reflexivity.
Defined.

Lemma render_parse_round_trip_witness :
  Frontmatter.parse_task_frontmatter FrontmatterSpec.sample_task_text
    = Some FrontmatterSpec.sample_items.
Proof.
  apply (render_parse_round_trip FrontmatterSpec.sample_items
           "Body of the task").
  - repeat (apply Forall_cons; split); [..|apply Forall_nil];
      by repeat split.
  - unfold dict_wf. simpl. apply NoDup_cons. split.
    + by intros ?%list_elem_of_singleton.
    + apply NoDup_singleton.
Defined.

(** ** Task files written from a mapping, as [discover] reports them *)

Section written_task_files.
Import Discover DiscoverSpec.

Lemma foldl_dset_nonempty (items acc : odict string string) :
  acc ≠ [] ->
  foldl (fun acc item => dset item.1 item.2 acc) acc items ≠ [].
Proof.
  revert acc. induction items as [|[k v] items IH]; intros acc Hacc; [done|].
  simpl. apply IH. destruct acc as [|[k0 v0] acc]; [done|].
  simpl. by case_decide.
Qed.

Lemma dict_of_nonempty d : d ≠ [] -> FrontmatterSpec.dict_of d ≠ [].
Proof.
  destruct d as [|[k v] d]; [done|]. intros _.
  unfold FrontmatterSpec.dict_of. simpl. by apply foldl_dset_nonempty.
Qed.

(** X21 (a written task file in the report): let the tasks directory
    be given by its file texts, and let an enumerated file that no link
    names hold a frontmatter block written from clean items.  When the
    items give a non-empty [plane_issue] that is no link key, the report
    lists the file as claiming that issue, with the status the items
    give; when they give no [plane_issue], or an empty one, it lists the
    file bare; and when there are no items at all (an empty block), no
    entry of the report names the file. *)
Theorem written_task_reported cache_path names read_text check_status
    w c r name d body :
  file w = Stored c ->
  (discover cache_path (Frontmatter.tasks_dir_of names read_text)
     check_status w).2 = Return (Found r) ->
  name ∈ names -> name ∉ dvalues (linked c) ->
  read_text name = Some (FrontmatterSpec.render d body) ->
  Forall FrontmatterSpec.clean_item d ->
  let fm := FrontmatterSpec.dict_of d in
  (forall p, dget "plane_issue" fm = Some p -> p ≠ "" ->
             dget p (linked c) = None ->
             Claiming name p (dget "status" fm) ∈ unlinked_tasks r) /\
  (d ≠ [] ->
   dget "plane_issue" fm = None \/ dget "plane_issue" fm = Some "" ->
   Bare name (dget "status" fm) ∈ unlinked_tasks r) /\
  (d = [] -> forall u, u ∈ unlinked_tasks r -> entry_file u ≠ name).
Proof.
  intros Hfile Hrun Hname Hfree Htext Hclean fm.
  rewrite (discover_unlinked_tasks _ _ _ _ _ _ Hfile Hrun).
  assert (Hparse : parse_task_frontmatter
                     (Frontmatter.tasks_dir_of names read_text) name
                   = Some fm).
  { simpl. rewrite Htext.
    exact (proj1 (render_parse_round_trip d body Hclean)). }
  assert (Hentry : forall u,
            u ∈ unlinked_task_entry
                  (Frontmatter.tasks_dir_of names read_text) (linked c) name
            -> u ∈ find_unlinked_tasks
                     (Frontmatter.tasks_dir_of names read_text) (linked c)).
  { intros u Hu. apply in_unlinked_tasks. by exists name. }
  pose proof (dict_of_nonempty d) as Hsome. fold fm in Hsome.
  assert (Hnone : d = [] -> fm = []) by by intros ->.
  assert (Htruthy : fm ≠ [] -> frontmatter_truthy (Some fm) = true)
    by by destruct fm.
  clearbody fm.
  unfold unlinked_task_entry in *.
  rewrite bool_decide_eq_false_2 in Hentry by done. cbn [negb] in Hentry.
  rewrite Hparse in Hentry. cbn [default] in Hentry. unfold id in Hentry.
  split_and!.
  - intros p Hp Hne Hkey. apply Hentry.
    rewrite Htruthy by (intros Hnil; by rewrite Hnil in Hp).
    cbv zeta. rewrite Hp. unfold str_truthy, dmem.
    rewrite (bool_decide_eq_false_2 _ Hne), Hkey. cbn [negb andb].
    apply list_elem_of_here.
  - intros Hd Hp. apply Hentry. rewrite Htruthy by auto. cbv zeta.
    destruct Hp as [->| ->]; [apply list_elem_of_here|].
    unfold str_truthy. rewrite bool_decide_eq_true_2 by done.
    cbn [negb andb]. apply list_elem_of_here.
  - intros Hd u (name' & _ & Hu)%in_unlinked_tasks Hfile_name.
    pose proof (unlinked_task_entry_file _ _ _ _ Hu) as [Hu_name _].
    rewrite Hfile_name in Hu_name. subst name'.
    revert Hu. unfold unlinked_task_entry.
    rewrite bool_decide_eq_false_2 by done. cbn [negb].
    rewrite Hparse, (Hnone Hd). cbn. by intros ?%elem_of_nil.
Qed.

End written_task_files.

Lemma written_task_reported_witness :
  exists r,
    (Discover.discover ".claude/plane-sync.json"
       (Frontmatter.tasks_dir_of ["a.md"] FrontmatterSpec.sample_read_text)
       false one_issue_world).2 = Return (Discover.Found r) /\
    Discover.Claiming "a.md" "CCPRISM-1" (Some "pending")
      ∈ Discover.unlinked_tasks r.
Proof.
  eexists. split; [reflexivity|].
  refine (proj1 (written_task_reported ".claude/plane-sync.json" ["a.md"]
                   FrontmatterSpec.sample_read_text false one_issue_world
                   _ _ "a.md" FrontmatterSpec.sample_items
                   "Body of the task" eq_refl eq_refl _ _ eq_refl _)
            "CCPRISM-1" eq_refl _ eq_refl).
  - apply list_elem_of_here.
  - apply not_elem_of_nil.
  - repeat (apply Forall_cons; split); [..|apply Forall_nil];
      by repeat split.
  - done.
Defined.

(** ** Reading the cache *)

Section read_cache.
Import ReadCache ReadSpec.






Lemma get_linked_fresh (issues : odict string issue)
    (l : odict string string) (acc : odict string linked_entry) :
  NoDup (dkeys l) -> (forall k, k ∈ dkeys l -> dget k acc = None) ->
  foldl (fun result '(issue_key, task_file) =>
           let issue := dget issue_key issues in
           dset issue_key
             {| l_task := task_file;
                l_name := match issue with
                          | Some i => i_name i
                          | None => JNull
                          end;
                l_state := match issue with
                           | Some i => i_state i
                           | None => JNull
                           end |}
             result) acc l
  = acc ++ ((fun item =>
               (item.1,
                {| l_task := item.2;
                   l_name := match dget item.1 issues with
                             | Some i => i_name i
                             | None => JNull
                             end;
                   l_state := match dget item.1 issues with
                              | Some i => i_state i
                              | None => JNull
                              end |})) <$> l).
Proof.
  unfold dkeys. revert acc.
  induction l as [|[k t] l IH]; intros acc Hnd Hfresh.
  - by rewrite app_nil_r.
  - rewrite fmap_cons in Hnd, Hfresh. apply NoDup_cons in Hnd as [Hk Hnd].
    pose proof (Hfresh k (list_elem_of_here _ _)) as Hkacc.
    simpl foldl. rewrite (dset_fresh _ _ _ Hkacc).
    rewrite IH; [by rewrite <- app_assoc|done|].
    intros k' Hk'. rewrite <- (dset_fresh _ _ _ Hkacc).
    rewrite dget_dset_ne by (intros ->; done).
    by apply Hfresh, list_elem_of_further.
Qed.

Lemma dget_fmap_entry {V W} (h : string -> V -> W) (l : odict string V) k :
  dget k ((fun item => (item.1, h item.1 item.2)) <$> l)
  = h k <$> dget k l.
Proof.
  induction l as [|[k0 v0] l IH]; [done|].
  rewrite fmap_cons. simpl. case_decide; [by subst|done].
Qed.

(** X23 (the reader in reachable worlds): [read_cache.py] never
    changes the world.  On the document of a world reached from the
    empty skeleton, the linked and the unlinked listings split the
    cached issues, [linked.count + unlinked.count = issues_count], the
    linked listing has one entry per link, and every entry carries the
    task file of the link with the name and the state of a cached
    issue: no link is listed without its issue. *)
Theorem read_cache_consistent cache_path a w c :
  reachable w -> file w = Stored c ->
  (main cache_path a w).1 = w /\
  v_linked_count (get_linked c) + v_unlinked_count (get_unlinked c)
    = s_issues_count (get_summary c) /\
  v_linked_count (get_linked c) = s_linked_count (get_summary c) /\
  forall k e,
    dget k (v_linked (get_linked c)) = Some e ->
    exists i,
      dget k (issues c) = Some i /\
      dget k (linked c) = Some (l_task e) /\
      l_name e = i_name i /\ l_state e = i_state i.
Proof.
  intros Hreach Hfile.
  destruct (reachable_invariant links_known w) as (c1 & Hload & Hk);
    [|apply links_known_step|done|].
  { split_and!; [apply NoDup_nil_2..|]. by intros k [? ?]. }
  destruct (loads_file _ _ Hload) as [Hfile1|[Hfile1 _]]; [|congruence].
  assert (c1 = c) as -> by congruence.
  destruct Hk as (Hwi & Hwl & Hknown).
  assert (Hlinked : v_linked (get_linked c) = _)
    by apply (get_linked_fresh (issues c) (linked c) [] Hwl
                (fun _ _ => eq_refl)).
  split_and!.
  - unfold main, bind, ReadCache.load_cache. rewrite Hfile.
    destruct (AddLink.opt_truthy _); [done|].
    destruct (arg_issues a).
    { unfold lift, ret. by destruct (get_issues c (arg_state_filter a)). }
    by destruct (arg_linked a), (arg_unlinked a), (arg_states a).
  - cbn [v_linked_count get_linked v_unlinked_count get_unlinked
         s_issues_count get_summary].
    change (foldl _ [] (linked c)) with (v_linked (get_linked c)).
    rewrite Hlinked, app_nil_l, length_fmap.
    rewrite find_unlinked_issues_length; [|done|done]. simpl.
    pose proof (linked_keys_count _ _ Hwi Hwl Hknown) as Hcount.
    pose proof (Permutation_length
                  (filter_app_complement
                     (fun k => dget k (linked c) = None)
                     (dkeys (issues c)))) as Hsplit.
    rewrite length_app in Hsplit. unfold dkeys in Hcount, Hsplit |- *.
    rewrite length_fmap in Hsplit. lia.
  - cbn [v_linked_count get_linked s_linked_count get_summary].
    change (foldl _ [] (linked c)) with (v_linked (get_linked c)).
    by rewrite Hlinked, app_nil_l, length_fmap.
  - intros k e. rewrite Hlinked, app_nil_l.
    rewrite (dget_fmap_entry
               (fun k t => {| l_task := t;
                              l_name := match dget k (issues c) with
                                        | Some i => i_name i
                                        | None => JNull
                                        end;
                              l_state := match dget k (issues c) with
                                         | Some i => i_state i
                                         | None => JNull
                                         end |})).
    destruct (dget k (linked c)) as [t|] eqn:Ht; [|done].
    intros [= <-]. destruct (Hknown k) as [i Hi]; [by rewrite Ht|].
    exists i. by rewrite Hi.
Qed.

End read_cache.


Lemma read_cache_consistent_witness :
  ReadCache.v_linked_count
    (ReadCache.get_linked
       {| project := []; states := [];
          issues := [("CCPRISM-1", sample_issue)];
          linked := [("CCPRISM-1", "a.md")]; lastSync := JNull |}) = 1 /\
  forall k e,
    dget k (ReadCache.v_linked
              (ReadCache.get_linked
                 {| project := []; states := [];
                    issues := [("CCPRISM-1", sample_issue)];
                    linked := [("CCPRISM-1", "a.md")];
                    lastSync := JNull |})) = Some e ->
    exists i,
      dget k [("CCPRISM-1", sample_issue)] = Some i /\
      dget k [("CCPRISM-1", "a.md")] = Some (ReadCache.l_task e) /\
      ReadCache.l_name e = i_name i /\ ReadCache.l_state e = i_state i.
Proof.
  destruct (read_cache_consistent ".claude/plane-sync.json"
              {| ReadCache.arg_issue := None; ReadCache.arg_issues := false;
                 ReadCache.arg_linked := true;
                 ReadCache.arg_unlinked := false;
                 ReadCache.arg_states := false;
                 ReadCache.arg_state_filter := None |}
              one_link_world
              {| project := []; states := [];
                 issues := [("CCPRISM-1", sample_issue)];
                 linked := [("CCPRISM-1", "a.md")]; lastSync := JNull |})
    as (_ & _ & Hcount & Hentries).
  - apply reach_step, reach_step, reach_empty. reflexivity.
  - reflexivity.
  - split; [exact Hcount|exact Hentries].
Defined.

(** ** A sync, then a link *)

Section sync_then_link.
Import SyncCache SyncSpec.

(** X24 (a synced issue can be linked): after a sync that returns,
    every issue of the snapshot is known to [add_link] under its key:
    the link of such an issue to a task file succeeds whenever the
    issue had no link and no link holds the task file, and it stores
    exactly that link on top of the synced document. *)
Theorem synced_issue_linkable data now w c w1 r e task_file :
  loads w c -> sync_cache data now w = (w1, Return r) ->
  e ∈ snapshot_issues data ->
  dget (entry_key (sync_identifier data c) e) (linked c) = None ->
  task_file ∉ dvalues (linked c) ->
  exists w2 c2 text name,
    AddLink.add_link (entry_key (sync_identifier data c) e) task_file w1
      = (w2, Return (AddLink.Linked text name)) /\
    loads w2 c2 /\
    issues c2 = issues (synced data now c) /\
    linked c2 =
      linked c ++ [(entry_key (sync_identifier data c) e, task_file)].
Proof.
  intros Hload Hsync Hin Hfree Htask.
  rewrite (sync_cache_run _ _ _ _ Hload) in Hsync.
  destruct (sync_doc data now c) as [[c1 r1]|] eqn:Hdoc; [|done].
  injection Hsync as <- <-.
  pose proof (sync_doc_Return _ _ _ _ _ Hdoc) as Hvalid.
  rewrite (sync_doc_valid _ _ _ Hvalid) in Hdoc. injection Hdoc as <- _.
  erewrite add_link_run by reflexivity.
  assert (Hknown : dmem (entry_key (sync_identifier data c) e)
                     (issues (synced data now c)) = true).
  { apply dmem_true. unfold synced. cbn [issues].
    apply (run_writes_keys_present _ _ true _
             (issue_record (sync_index data) e)).
    apply list_elem_of_fmap. by exists e. }
  rewrite Hknown. cbn [negb linked synced]. rewrite Hfree. cbn [andb].
  assert (Howner : AddLink.task_owner (entry_key (sync_identifier data c) e)
                     task_file (linked c) = None).
  { apply task_owner_None. intros k Hk. destruct Htask.
    unfold dvalues. apply list_elem_of_fmap. by exists (k, task_file). }
  rewrite Howner. eexists _, _, _, _.
  split; [reflexivity|]. split; [reflexivity|]. split; [done|].
  cbn [linked]. by apply dset_fresh.
Qed.

End sync_then_link.

Lemma synced_issue_linkable_witness :
  exists w2 c2 text name,
    AddLink.add_link "CCPRISM-27" "b.md"
      (SyncCache.sync_cache sample_snapshot "T1" one_link_world).1
      = (w2, Return (AddLink.Linked text name)) /\
    loads w2 c2 /\
    linked c2 = [("CCPRISM-1", "a.md"); ("CCPRISM-27", "b.md")].
Proof.
  destruct (synced_issue_linkable sample_snapshot "T1" one_link_world
              {| project := []; states := [];
                 issues := [("CCPRISM-1", sample_issue)];
                 linked := [("CCPRISM-1", "a.md")]; lastSync := JNull |}
              _ _ (sample_entry 27 "2025-01-01T00:00:00Z") "b.md"
              eq_refl eq_refl)
    as (w2 & c2 & text & name & Hlink & Hload & _ & Hlinked).
  - apply list_elem_of_here.
  - reflexivity.
  - unfold dvalues. simpl. by intros ?%list_elem_of_singleton.
  - by exists w2, c2, text, name.
Defined.
